(** * STORI annual report downloader: a Rocq model of [main.py] and [api_client.py]

    The development follows the two source files of the pipeline.  Python
    strings are sequences of Unicode code points; the objects decoded from
    JSON are records or finite maps whose entries may be missing or null;
    the functions that talk to the network or to the disk run in a small
    state-and-exception monad over an explicit world: the files of the
    download directory, the issuer cache file, and the trace of what the
    run has done so far.  Logging is left out. *)

From Stdlib Require Import ZArith NArith List String Ascii Lia.
From Stdlib Require Import DecimalString DecimalZ.
From stdpp Require Import base option list gmap strings.

Local Open Scope Z_scope.

(** ** Python strings *)

Module PyStr.

(** A [str] is a list of code points. *)
Abbreviation pystr := (list N).

(** A string literal of the source, as code points. *)
Definition lit (s : string) : pystr :=
  List.map N_of_ascii (list_ascii_of_string s).

Definition in_range (lo hi c : N) : bool := ((lo <=? c) && (c <=? hi))%N.

Definition is_ascii (c : N) : bool := (c <? 128)%N.
Definition is_ascii_upper (c : N) : bool := in_range 65 90 c.
Definition is_ascii_lower (c : N) : bool := in_range 97 122 c.
Definition is_ascii_digit (c : N) : bool := in_range 48 57 c.

(** [str.isspace] on one code point: the characters removed by
    [str.strip()] when it is called without argument. *)
Definition is_space (c : N) : bool :=
  in_range 9 13 c || in_range 28 32 c || (c =? 133)%N || (c =? 160)%N
  || (c =? 5760)%N || in_range 8192 8202 c || (c =? 8232)%N
  || (c =? 8233)%N || (c =? 8239)%N || (c =? 8287)%N || (c =? 12288)%N.

Fixpoint lstrip (s : pystr) : pystr :=
  match s with
  | [] => []
  | c :: rest => if is_space c then lstrip rest else s
  end.

Definition rstrip (s : pystr) : pystr := rev (lstrip (rev s)).

(** [s.strip()] *)
Definition strip (s : pystr) : pystr := rstrip (lstrip s).

(** [s.replace(old, new)] for one-character [old] and [new]. *)
Definition replace_char (old new : N) (s : pystr) : pystr :=
  List.map (fun c => if (c =? old)%N then new else c) s.

(** [s.startswith(p)] and [s.endswith(p)] *)
Fixpoint startswith (s p : pystr) {struct p} : bool :=
  match p, s with
  | [], _ => true
  | _ :: _, [] => false
  | a :: p', b :: s' => (a =? b)%N && startswith s' p'
  end.

Definition endswith (s p : pystr) : bool := startswith (rev s) (rev p).

(** [s.split(sep)] for a one-character separator: the fields between
    the separators, never an empty list. *)
Fixpoint split_char (sep : N) (s : pystr) : list pystr :=
  match s with
  | [] => [[]]
  | c :: rest =>
      if (c =? sep)%N then [] :: split_char sep rest
      else match split_char sep rest with
           | [] => [[c]]
           | f :: fs => (c :: f) :: fs
           end
  end.

(** [s.rpartition(sep)] for a one-character separator: the part before
    the last separator, the separator, the part after it; two empty
    strings and [s] when there is no separator. *)
Fixpoint rpartition_rev (sep : N) (r acc : pystr) : pystr * pystr * pystr :=
  match r with
  | [] => ([], [], acc)
  | c :: r' =>
      if (c =? sep)%N then (rev r', [sep], acc)
      else rpartition_rev sep r' (c :: acc)
  end.

Definition rpartition (sep : N) (s : pystr) : pystr * pystr * pystr :=
  rpartition_rev sep (rev s) [].

(** [str(n)], also what [f"{n}"] prints for an [int]. *)
Definition decimal (n : Z) : pystr := lit (NilEmpty.string_of_int (Z.to_int n)).

(** ASCII case mapping. *)
Definition ascii_upper (c : N) : N := if is_ascii_lower c then (c - 32)%N else c.
Definition ascii_lower (c : N) : N := if is_ascii_upper c then (c + 32)%N else c.

(** The case mappings of the Unicode database for the code points above
    ASCII.  The lower-case mapping of a code point may produce several
    code points and may depend on what surrounds it (capital sigma), so
    it receives the text before and after the code point. *)
Record CaseTables := {
  upper_full : N -> pystr;
  lower_full : pystr -> N -> pystr -> pystr
}.

Section Case.
Variable U : CaseTables.

(** [s.upper()] *)
Definition upper (s : pystr) : pystr :=
  flat_map (fun c => if is_ascii c then [ascii_upper c] else upper_full U c) s.

Fixpoint lower_from (before s : pystr) : pystr :=
  match s with
  | [] => []
  | c :: rest =>
      (if is_ascii c then [ascii_lower c] else lower_full U before c rest)
        ++ lower_from (before ++ [c]) rest
  end.

(** [s.lower()] *)
Definition lower (s : pystr) : pystr := lower_from [] s.
End Case.

(** [x or d] for a value that is [None] or a string. *)
Definition str_or (x : option pystr) (d : pystr) : pystr :=
  match x with
  | Some (c :: s) => c :: s
  | _ => d
  end.

(** [x or []] for a value that is [None] or a list. *)
Definition list_or {A} (x : option (list A)) : list A :=
  match x with
  | Some l => l
  | None => []
  end.

End PyStr.
Import PyStr.

Arguments lit : simpl never.
Arguments decimal : simpl never.

(** ** Filenames ([main.py], first part) *)

(** The character class [[A-Za-z0-9_\-]] of the sanitizer's pattern. *)
Definition is_filename_char (c : N) : bool :=
  is_ascii_upper c || is_ascii_lower c || is_ascii_digit c
  || (c =? 95)%N || (c =? 45)%N.

(** [re.sub(r"[^A-Za-z0-9_\-]+", "", text)]: every maximal run of
    characters outside the class is replaced by nothing, which leaves the
    characters of the class in their order. *)
Definition re_sub_invalid (text : pystr) : pystr :=
  List.filter is_filename_char text.

Definition sanitize_for_filename (text : pystr) : pystr :=
  match text with
  | [] => lit "UNKNOWN"
  | _ =>
      let text := replace_char 32 95 (strip text) in
      let text := re_sub_invalid text in
      match text with
      | [] => lit "UNKNOWN"
      | _ => text
      end
  end.

(** The expression [publication_iso.split("T")[0] if publication_iso
    else "UNKNOWN_DATE"] of [build_output_filename]. *)
Definition date_part (publication_iso : pystr) : pystr :=
  match publication_iso with
  | [] => lit "UNKNOWN_DATE"
  | _ => hd [] (split_char 84 publication_iso)
  end.

Definition build_output_filename (U : CaseTables)
    (company_name lei publication_iso : pystr) : pystr :=
  let company_part := upper U (sanitize_for_filename company_name) in
  let lei_part := sanitize_for_filename lei in
  let date_part := date_part publication_iso in
  company_part ++ lit "_" ++ lei_part ++ lit "_AnnualReport_" ++ date_part ++ lit ".pdf".

(** ** The API data, as the code reads it

    The objects decoded from JSON are read with [d.get(key)]: a field is
    [None] when the key is missing or its value is null. *)

Record DocumentRef := {
  fileType : option pystr;
  language : option pystr;
  originalFileName : option pystr;
  fileDataId : option pystr
}.

Record FilingItem := {
  companyName : option pystr;
  lei : option pystr;
  datePublication : option pystr;
  mainDocuments : option (list DocumentRef);
  attachments : option (list DocumentRef)
}.

Record SearchResult := {
  resultCount : option Z;
  storiResultItems : option (list FilingItem)
}.

Record SearchPayload := {
  startRowIndex : Z;
  pageSize : Z;
  sortDirection : pystr;
  documentTypeId : pystr;
  isDocumentTypeGroup : bool;
  publicationStart : pystr;
  companyId : option pystr
}.

(** A raw issuer of the cache file is a JSON object: a dictionary from
    keys to values that are null ([None]) or strings. *)
Abbreviation RawIssuer := (gmap string (option pystr)).

(** The dictionary [{"id": ..., "name": ...}] built by
    [normalize_issuer_list]. *)
Record Issuer := {
  issuer_id : option pystr;
  issuer_name : pystr
}.

(** ** The world, and the monad of the effectful functions *)

Inductive Exception :=
| RequestException          (* the session's request failed, or ended in an error status *)
| JSONDecodeError           (* a body that is not JSON *)
| KeyError (key : string)   (* [d[key]] on a dictionary without [key] *)
| OSError (errno : Z)       (* a call to the file system failed *)
| LoopBound.                (* the bound that the model puts on a [while] loop was
                               reached; never raised, see [resolve_output_path_total] *)

Abbreviation bytes := (list Byte.byte).

(** What the run does to the outside, in order. *)
Inductive Event :=
| EvPost (url : pystr) (json_body : SearchPayload)
| EvGet (url : pystr) (file_data_id : pystr)
| EvWrite (path : pystr) (content : bytes).

(** The remote API.  Its answer may depend on everything that was done
    before the request. *)
Record Remote := {
  http_post : list Event -> pystr -> SearchPayload -> Exception + SearchResult;
  http_get : list Event -> pystr -> pystr -> Exception + bytes
}.

(** The file system under the download directory, where it can fail:
    [stat_error] is the exception, if any, that [path.exists()] raises for
    a path (a name that is too long, say: [exists] returns [False] for a
    missing file or directory but raises the other errors of [stat]), and
    [open_error] the exception, if any, that [path.write_bytes] raises
    when it opens the path (a directory of the path that is missing, a
    name that is too long); nothing is written then.  Both may depend on
    everything that was done before. *)
Record Disk := {
  stat_error : list Event -> pystr -> option Exception;
  open_error : list Event -> pystr -> option Exception
}.

(** The [json] module, on the issuer cache file. *)
Record Json := {
  json_loads : pystr -> Exception + list RawIssuer;
  json_dumps : list RawIssuer -> pystr
}.

(** The files of the directory [downloads/] by name, the text of the
    issuer cache file when it exists, and the events so far.  Creating
    the directory is taken to succeed. *)
Record World := {
  downloads_dir : gmap pystr bytes;
  issuers_file : option pystr;
  trace : list Event
}.

Inductive Outcome (A : Type) :=
| Ok (a : A)
| Raise (e : Exception).
Arguments Ok {A} a.
Arguments Raise {A} e.

Definition M (A : Type) : Type := World -> Outcome A * World.

Definition ret {A} (a : A) : M A := fun w => (Ok a, w).

Definition bind {A B} (m : M A) (k : A -> M B) : M B :=
  fun w =>
    match m w with
    | (Ok a, w') => k a w'
    | (Raise e, w') => (Raise e, w')
    end.

Definition raise {A} (e : Exception) : M A := fun w => (Raise e, w).

Notation "'let*' x ':=' m 'in' k" := (bind m (fun x => k))
  (at level 10, x name, m at level 100, k at level 200).
Notation "'do' m 'then' k" := (bind m (fun _ => k))
  (at level 10, m at level 100, k at level 200).

(** The world after one more event. *)
Definition record (ev : Event) (w : World) : World :=
  {| downloads_dir := downloads_dir w;
     issuers_file := issuers_file w;
     trace := trace w ++ [ev] |}.

(** [path.exists()] for a path of the download directory, after the
    events [prior]: an exception, or whether the file is there. *)
Definition path_exists (D : Disk) (prior : list Event) (files : gmap pystr bytes)
    (path : pystr) : Exception + bool :=
  match stat_error D prior path with
  | Some e => inl e
  | None =>
      match files !! path with
      | Some _ => inr true
      | None => inr false
      end
  end.

(** [output_path.write_bytes(file_bytes)] *)
Definition write_bytes (D : Disk) (path : pystr) (content : bytes) : M unit :=
  fun w =>
    match open_error D (trace w) path with
    | Some e => (Raise e, w)
    | None =>
        (Ok tt,
         record (EvWrite path content)
           {| downloads_dir := <[path := content]> (downloads_dir w);
              issuers_file := issuers_file w;
              trace := trace w |})
    end.

(** ** [api_client.py] *)

Definition BASE_URL : pystr := lit "https://webapi.fsma.be".
Definition STORI_RESULT_ENDPOINT : pystr := lit "/api/v1/en/stori/result".
Definition STORI_DOWNLOAD_ENDPOINT : pystr := lit "/api/v1/en/stori/download".

Section ApiClient.
Variable R : Remote.

(** The request is sent, then a failure of the request or of the decoding
    of its body is raised again, and the decoded body returned otherwise. *)
Definition post_json (path : pystr) (json_body : SearchPayload) : M SearchResult :=
  fun w =>
    let url := BASE_URL ++ path in
    let w' := record (EvPost url json_body) w in
    match http_post R (trace w) url json_body with
    | inl e => (Raise e, w')
    | inr data => (Ok data, w')
    end.

Definition fetch_stori_results (search_payload : SearchPayload) : M SearchResult :=
  post_json STORI_RESULT_ENDPOINT search_payload.

(** The request is sent, a failure is raised again, and the body of the
    response returned otherwise. *)
Definition download_file (file_data_id : pystr) : M bytes :=
  fun w =>
    let url := BASE_URL ++ STORI_DOWNLOAD_ENDPOINT in
    let w' := record (EvGet url file_data_id) w in
    match http_get R (trace w) url file_data_id with
    | inl e => (Raise e, w')
    | inr content => (Ok content, w')
    end.

End ApiClient.

(** ** [main.py]: the issuer list *)

(** The loop of [normalize_issuer_list]: [issuers] is the list built so
    far, and [issuer["companyId"]] raises when the key is missing. *)
Fixpoint normalize_loop (raw : list RawIssuer) (issuers : list Issuer)
    : Outcome (list Issuer) :=
  match raw with
  | [] => Ok issuers
  | issuer :: rest =>
      match issuer !! "companyId"%string with
      | None => Raise (KeyError "companyId")
      | Some company_id =>
          normalize_loop rest
            (issuers ++ [{| issuer_id := company_id;
                            issuer_name :=
                              str_or (default None (issuer !! "abbreviation"%string))
                                     (lit "UNKNOWN") |}])
      end
  end.

Definition normalize_issuer_list (raw : list RawIssuer) : Outcome (list Issuer) :=
  normalize_loop raw [].

Definition default_raw : list RawIssuer :=
  [ {[ "companyId"%string := Some (lit "02285e3c-71e9-496a-8d47-d1408131c44b");
       "companyNumber"%string := None;
       "localisedName"%string := None;
       "abbreviation"%string := Some (lit "ACACIA PHARMA GROUP");
       "lei"%string := None ]} ].

Section IssuerFile.
Variable J : Json.

(** [ensure_issuer_file]; the path is the issuer cache file of the world. *)
Definition ensure_issuer_file : M (list Issuer) :=
  fun w =>
    match issuers_file w with
    | Some text =>
        match json_loads J text with
        | inl e => (Raise e, w)
        | inr raw => (normalize_issuer_list raw, w)
        end
    | None =>
        (normalize_issuer_list default_raw,
         {| downloads_dir := downloads_dir w;
            issuers_file := Some (json_dumps J default_raw);
            trace := trace w |})
    end.

End IssuerFile.

(** ** [main.py]: the downloads of one issuer *)

(** The filter at the top of the body of the loop over documents: the
    three [continue] statements, and the [fileDataId] to download when
    none of them is taken. *)
Definition document_filter (U : CaseTables) (doc : DocumentRef) : option pystr :=
  let file_type := lower U (str_or (fileType doc) []) in
  let language := lower U (str_or (language doc) []) in
  let original_name := lower U (str_or (originalFileName doc) []) in
  if negb (bool_decide (language ∈ [lit "en"; lit "nl"])) then None
  else if negb (bool_decide (file_type = lit "pdf"))
          && negb (endswith original_name (lit ".pdf")) then None
  else
    let file_data_id := fileDataId doc in
    match file_data_id with
    | None | Some [] => None
    | Some (c :: s) => Some (c :: s)
    end.

(** The [while output_path.exists()] loop.  [fuel] bounds the number of
    tests of the loop condition; [None] when it is used up.  A test that
    raises ends the loop with its exception. *)
Fixpoint version_loop (fuel : nat) (D : Disk) (prior : list Event)
    (files : gmap pystr bytes) (stem ext output_path : pystr) (counter : Z)
    : option (Exception + pystr) :=
  match fuel with
  | O => None
  | S fuel' =>
      match path_exists D prior files output_path with
      | inl e => Some (inl e)
      | inr true =>
          version_loop fuel' D prior files stem ext
            (stem ++ lit "_v" ++ decimal counter ++ lit "." ++ ext) (counter + 1)
      | inr false => Some (inr output_path)
      end
  end.

(** The path chosen for [output_name] in a directory holding [files],
    or the exception of a test that raised.  The loop tests at most the
    base name and one candidate more than there are files, so that [None]
    does not arise (see [resolve_output_path_total]). *)
Definition resolve_output_path (D : Disk) (prior : list Event)
    (files : gmap pystr bytes) (output_name : pystr) : option (Exception + pystr) :=
  let output_path := output_name in
  match path_exists D prior files output_path with
  | inl e => Some (inl e)
  | inr true =>
      match rpartition 46 output_name with
      | (stem, dot, ext) =>
          let counter := 2 in
          version_loop (S (S (size files))) D prior files stem ext output_path counter
      end
  | inr false => Some (inr output_path)
  end.

Section Download.
Variable U : CaseTables.
Variable R : Remote.
Variable D : Disk.

(** The body of the loop over documents, after the test of the cap. *)
Definition download_document (company_name lei publication_iso : pystr)
    (doc : DocumentRef) (download_count : Z) : M Z :=
  match document_filter U doc with
  | None => ret download_count
  | Some file_data_id =>
      let output_name := build_output_filename U company_name lei publication_iso in
      fun w =>
        match resolve_output_path D (trace w) (downloads_dir w) output_name with
        | None => (Raise LoopBound, w)
        | Some (inl e) => (Raise e, w)
        | Some (inr output_path) =>
            (let* file_bytes := download_file R file_data_id in
             do write_bytes D output_path file_bytes then
             ret (download_count + 1)) w
        end
  end.

(** [for doc in documents] *)
Fixpoint documents_loop (MAX : Z) (company_name lei publication_iso : pystr)
    (documents : list DocumentRef) (download_count : Z) : M Z :=
  match documents with
  | [] => ret download_count
  | doc :: rest =>
      if download_count >=? MAX then ret download_count
      else
        let* download_count :=
          download_document company_name lei publication_iso doc download_count in
        documents_loop MAX company_name lei publication_iso rest download_count
  end.

(** The documents of a filing item, in the order of the inner loop. *)
Definition item_documents (item : FilingItem) : list DocumentRef :=
  list_or (mainDocuments item) ++ list_or (attachments item).

(** [for item in items] *)
Fixpoint items_loop (MAX : Z) (items : list FilingItem) (download_count : Z) : M Z :=
  match items with
  | [] => ret download_count
  | item :: rest =>
      if download_count >=? MAX then ret download_count
      else
        let company_name := str_or (companyName item) (lit "UNKNOWN_COMPANY") in
        let lei := str_or (lei item) (lit "NO_LEI") in
        let publication_iso := str_or (datePublication item) (lit "UNKNOWN_DATE") in
        let documents := item_documents item in
        let* download_count :=
          documents_loop MAX company_name lei publication_iso documents download_count in
        items_loop MAX rest download_count
  end.

Definition search_payload_for (company_id : option pystr)
    (document_type_id publication_start : pystr) : SearchPayload :=
  {| startRowIndex := 0;
     pageSize := 50;
     sortDirection := lit "Ascending";
     documentTypeId := document_type_id;
     isDocumentTypeGroup := false;
     publicationStart := publication_start;
     companyId := company_id |}.

Definition download_for_issuer (company_id : option pystr)
    (document_type_id publication_start : pystr)
    (max_downloads already_downloaded : Z) : M Z :=
  if already_downloaded >=? max_downloads then ret already_downloaded
  else
    let search_payload :=
      search_payload_for company_id document_type_id publication_start in
    let* results := fetch_stori_results R search_payload in
    let items := list_or (storiResultItems results) in
    let download_count := already_downloaded in
    let MAX := max_downloads in
    items_loop MAX items download_count.

(** ** [main.py]: the run *)

Definition DOCUMENT_TYPE_ANNUAL : pystr := lit "9813c451-9fd4-41ba-ba7d-4e0dda0d3051".
Definition MAX_DOWNLOADS : Z := 5.

(** [for issuer in issuers], for a cap [max_downloads]. *)
Fixpoint issuers_loop (max_downloads : Z) (issuers : list Issuer)
    (total_downloads : Z) : M Z :=
  match issuers with
  | [] => ret total_downloads
  | issuer :: rest =>
      if total_downloads >=? max_downloads then ret total_downloads
      else
        let* total_downloads :=
          download_for_issuer (issuer_id issuer) DOCUMENT_TYPE_ANNUAL
            (lit "2011-01-01") max_downloads total_downloads in
        issuers_loop max_downloads rest total_downloads
  end.

Variable J : Json.

(** [main], returning the total that it logs ([None] when it stops early
    on an empty issuer list). *)
Definition main : M (option Z) :=
  let total_downloads := 0 in
  let* issuers := ensure_issuer_file J in
  match issuers with
  | [] => ret None
  | _ =>
      let* total_downloads := issuers_loop MAX_DOWNLOADS issuers total_downloads in
      ret (Some total_downloads)
  end.

End Download.

(** ** Vocabulary of the statements *)

(** Case tables for the examples: the two non-ASCII code points whose
    lower-case mapping contains an ASCII letter (the Kelvin sign and the
    dotted capital I) are mapped as in Unicode, every other non-ASCII
    code point is left as it is. *)
Definition sample_tables : CaseTables :=
  {| upper_full := fun c => [c];
     lower_full := fun _ c _ =>
       if (c =? 8490)%N then [107%N]
       else if (c =? 304)%N then [105%N; 775%N]
       else [c] |}.

(** The characters of a sanitized part, and the dot. *)
Definition is_safe_char (c : N) : bool := is_filename_char c || (c =? 46)%N.

(** Two strings that differ at most by the case of their ASCII letters. *)
Definition eq_nocase (s t : pystr) : Prop :=
  Forall2 (fun a b => ascii_lower a = ascii_lower b) s t.

(** [s] ends with [t], up to the case of ASCII letters. *)
Definition ends_nocase (s t : pystr) : Prop :=
  exists pre suf, s = pre ++ suf /\ eq_nocase suf t.

(** The text of a field, empty when the field is missing or null. *)
Definition field_text (x : option pystr) : pystr := default [] x.

Definition present_nonempty (x : option pystr) : Prop :=
  exists c s, x = Some (c :: s).

(** The acceptance rule of the specification. *)
Definition acceptable (doc : DocumentRef) : Prop :=
  (eq_nocase (field_text (language doc)) (lit "en")
   \/ eq_nocase (field_text (language doc)) (lit "nl"))
  /\ (eq_nocase (field_text (fileType doc)) (lit "pdf")
      \/ ends_nocase (field_text (originalFileName doc)) (lit ".pdf"))
  /\ present_nonempty (fileDataId doc).

(** The characters of the strings that the filter compares with. *)
Definition filter_letters : pystr := lit ".deflnp".

(** What the filter needs from the Unicode tables: lowering a non-ASCII
    code point gives at least one code point, and none of the letters
    above (in Unicode only "k" and "i" arise from non-ASCII code points). *)
Definition tables_agree (U : CaseTables) : Prop :=
  forall before c after,
    is_ascii c = false ->
    lower_full U before c after <> []
    /\ Forall (fun x => x ∉ filter_letters) (lower_full U before c after).

(** The versioned name [f"{stem}_v{counter}.{ext}"]. *)
Definition candidate (stem ext : pystr) (counter : Z) : pystr :=
  stem ++ lit "_v" ++ decimal counter ++ lit "." ++ ext.

(** ** Reading a trace *)

Definition is_post (ev : Event) : bool :=
  match ev with
  | EvPost _ _ => true
  | _ => false
  end.

Definition get_id (ev : Event) : option pystr :=
  match ev with
  | EvGet _ file_data_id => Some file_data_id
  | _ => None
  end.

(** The download requests of a trace, by [fileDataId], in order. *)
Definition get_ids (events : list Event) : list pystr := omap get_id events.

(** The number of download requests of a trace. *)
Definition downloads (events : list Event) : Z := Z.of_nat (length (get_ids events)).

(** The documents that a response offers, in the order of the
    specification: the filing items in response order, and for each of
    them its main documents followed by its attachments. *)
Definition considered (results : SearchResult) : list DocumentRef :=
  flat_map (fun item => list_or (mainDocuments item) ++ list_or (attachments item))
           (list_or (storiResultItems results)).

(** Where an exception of the download loops comes from: a download
    request, a test of existence, or the opening of a file for writing. *)
Definition raised_by (R : Remote) (D : Disk) (e : Exception) : Prop :=
  (exists prior url file_data_id, http_get R prior url file_data_id = inl e)
  \/ (exists prior path, stat_error D prior path = Some e)
  \/ (exists prior path, open_error D prior path = Some e).

(** What a piece of the download loops does, started with the counter at
    [c] in the world [w] and ending in [r], when [wanted] lists the
    identifiers of the documents that it would download without a cap:
    it issues no search; it requests, in order, a prefix of the first
    [MAX - c] of them; if it returns, it has requested them all and the
    counter has grown by their number; if it raises, the exception is one
    that a download request or the file system gave. *)
Definition downloads_in_order (R : Remote) (D : Disk) (MAX c : Z)
    (wanted : list pystr) (w : World) (r : Outcome Z * World) : Prop :=
  let quota := take (Z.to_nat (MAX - c)) wanted in
  exists events,
    trace r.2 = trace w ++ events
    /\ Forall (fun ev => is_post ev = false) events
    /\ get_ids events `prefix_of` quota
    /\ (forall c', r.1 = Ok c' ->
          get_ids events = quota /\ c' = c + Z.of_nat (length quota))
    /\ (forall e, r.1 = Raise e -> raised_by R D e).

(** No search is issued in [events] once the downloads, [c] of them
    before [events], have reached [MAX]. *)
Definition posts_below (MAX c : Z) (events : list Event) : Prop :=
  forall before url body after,
    events = before ++ EvPost url body :: after ->
    c + downloads before < MAX.

(** What a piece of the run over the issuers does. *)
Definition capped (MAX c : Z) (w : World) (r : Outcome Z * World) : Prop :=
  exists events,
    trace r.2 = trace w ++ events
    /\ posts_below MAX c events
    /\ c + downloads events <= Z.max c MAX
    /\ (forall c', r.1 = Ok c' -> c' = c + downloads events).

(** The files written in a trace, by path, in order. *)
Definition written_paths (events : list Event) : list pystr :=
  omap (fun ev => match ev with EvWrite path _ => Some path | _ => None end) events.

(** ** Normalized issuers, as the specification describes them *)

Definition has_company_id (issuer : RawIssuer) : Prop :=
  is_Some (issuer !! "companyId"%string).

Definition normalized (issuer : RawIssuer) (out : Issuer) : Prop :=
  issuer !! "companyId"%string = Some (issuer_id out)
  /\ issuer_name out =
       match issuer !! "abbreviation"%string with
       | Some (Some (c :: s)) => c :: s
       | _ => lit "UNKNOWN"
       end.

(** ** Sample data *)

(** The accepted document of the specification's filter example. *)
Definition example_document : DocumentRef :=
  {| fileType := Some (lit "docx");
     language := Some (lit "en");
     originalFileName := Some (lit "r.PDF");
     fileDataId := Some (lit "x") |}.

(** A filing item without publication timestamp. *)
Definition undated_item : FilingItem :=
  {| companyName := Some (lit "Acacia Pharma Group");
     lei := Some (lit "213800SLDKXWKT6E3381");
     datePublication := None;
     mainDocuments := Some [example_document];
     attachments := None |}.

(** A filing item with two main documents and an attachment. *)
Definition dated_item : FilingItem :=
  {| companyName := Some (lit "Acacia Pharma Group");
     lei := Some (lit "213800SLDKXWKT6E3381");
     datePublication := Some (lit "2022-04-29T10:00:00Z");
     mainDocuments :=
       Some [ {| fileType := Some (lit "pdf"); language := Some (lit "EN");
                 originalFileName := None; fileDataId := Some (lit "m1") |};
              {| fileType := Some (lit "pdf"); language := Some (lit "FR");
                 originalFileName := None; fileDataId := Some (lit "m2") |} ];
     attachments :=
       Some [ {| fileType := None; language := Some (lit "nl");
                 originalFileName := Some (lit "bijlage.PDF");
                 fileDataId := Some (lit "a1") |} ] |}.

(** A remote API that answers every search with [items] and every
    download with an empty body. *)
Definition remote_with (items : option (list FilingItem)) : Remote :=
  {| http_post := fun _ _ _ => inr {| resultCount := Some 1; storiResultItems := items |};
     http_get := fun _ _ _ => inr [] |}.

Definition empty_world : World :=
  {| downloads_dir := ∅; issuers_file := None; trace := [] |}.

(** A [json] module for the examples: every text decodes to the default
    issuer list. *)
Definition sample_json : Json :=
  {| json_loads := fun _ => inr default_raw; json_dumps := fun _ => [] |}.

(** A download directory in which a computed name and its second version
    are taken. *)
Definition crowded_directory : gmap pystr bytes :=
  {[ lit "ACACIA_2138_AnnualReport_2022-04-29.pdf" := [];
     lit "ACACIA_2138_AnnualReport_2022-04-29_v2.pdf" := [] ]}.

(** A world whose issuer cache file exists. *)
Definition cached_world : World :=
  {| downloads_dir := ∅; issuers_file := Some (lit "[...]"); trace := [] |}.

(** A file system that never fails. *)
Definition sound_disk : Disk :=
  {| stat_error := fun _ _ => None; open_error := fun _ _ => None |}.

(** A file system whose names hold at most 255 characters: a longer
    name makes [exists] and [write_bytes] raise [OSError] 36 (the name is
    too long). *)
Definition limited_disk : Disk :=
  {| stat_error := fun _ path =>
       if (255 <? length path)%nat then Some (OSError 36) else None;
     open_error := fun _ path =>
       if (255 <? length path)%nat then Some (OSError 36) else None |}.

(** A computed name of 255 characters, and a directory that holds it. *)
Definition long_name : pystr :=
  build_output_filename sample_tables (replicate 225 65%N) (lit "X") (lit "2022-04-29").

Definition long_directory : gmap pystr bytes := {[ long_name := [] ]}.

(** ** The log of a run *)

(** The events that a run from the world [w] to the world [w'] added. *)
Definition new_events (w w' : World) : list Event :=
  drop (length (trace w)) (trace w').

(** The download directory after the writes of [events]. *)
Fixpoint apply_writes (events : list Event) (dir : gmap pystr bytes)
    : gmap pystr bytes :=
  match events with
  | [] => dir
  | EvWrite path content :: rest => apply_writes rest (<[path := content]> dir)
  | _ :: rest => apply_writes rest dir
  end.

(** The exception that ended a run, if one did. *)
Definition failure {A} (o : Outcome A) : option Exception :=
  match o with
  | Ok _ => None
  | Raise e => Some e
  end.

(** The bodies of the search requests of a trace, in order. *)
Definition post_bodies (events : list Event) : list SearchPayload :=
  omap (fun ev => match ev with EvPost _ body => Some body | _ => None end) events.

(** [log_ok R D prior dir events f]: the events are what a run does
    after the events [prior], in a download directory [dir], when it ends
    with the failure [f].  A search goes to the result endpoint and the
    run goes on when it is answered; a download goes to the download
    endpoint, and its body is written at once, to a path ending in ".pdf"
    that does not exist at that time; a request that fails is the last
    event, and its exception the failure of the run; so is a download
    whose file cannot be opened; and a test of existence that raises ends
    the run where it is. *)
Inductive log_ok (R : Remote) (D : Disk)
    : list Event -> gmap pystr bytes -> list Event -> option Exception -> Prop :=
| log_done prior dir :
    log_ok R D prior dir [] None
| log_stat_fail prior dir path e :
    stat_error D prior path = Some e ->
    log_ok R D prior dir [] (Some e)
| log_post_fail prior dir body e :
    http_post R prior (BASE_URL ++ STORI_RESULT_ENDPOINT) body = inl e ->
    log_ok R D prior dir [EvPost (BASE_URL ++ STORI_RESULT_ENDPOINT) body] (Some e)
| log_post prior dir body results rest f :
    http_post R prior (BASE_URL ++ STORI_RESULT_ENDPOINT) body = inr results ->
    log_ok R D (prior ++ [EvPost (BASE_URL ++ STORI_RESULT_ENDPOINT) body]) dir rest f ->
    log_ok R D prior dir (EvPost (BASE_URL ++ STORI_RESULT_ENDPOINT) body :: rest) f
| log_get_fail prior dir file_data_id e :
    http_get R prior (BASE_URL ++ STORI_DOWNLOAD_ENDPOINT) file_data_id = inl e ->
    log_ok R D prior dir [EvGet (BASE_URL ++ STORI_DOWNLOAD_ENDPOINT) file_data_id]
      (Some e)
| log_open_fail prior dir file_data_id content path e :
    http_get R prior (BASE_URL ++ STORI_DOWNLOAD_ENDPOINT) file_data_id = inr content ->
    open_error D (prior ++ [EvGet (BASE_URL ++ STORI_DOWNLOAD_ENDPOINT) file_data_id])
      path = Some e ->
    log_ok R D prior dir [EvGet (BASE_URL ++ STORI_DOWNLOAD_ENDPOINT) file_data_id]
      (Some e)
| log_download prior dir file_data_id path content rest f :
    http_get R prior (BASE_URL ++ STORI_DOWNLOAD_ENDPOINT) file_data_id = inr content ->
    dir !! path = None ->
    endswith path (lit ".pdf") = true ->
    log_ok R D (prior ++ [EvGet (BASE_URL ++ STORI_DOWNLOAD_ENDPOINT) file_data_id;
                          EvWrite path content])
      (<[path := content]> dir) rest f ->
    log_ok R D prior dir
      (EvGet (BASE_URL ++ STORI_DOWNLOAD_ENDPOINT) file_data_id
         :: EvWrite path content :: rest) f.

(** A run from [w] that ends in [r] is logged: its events extend the
    trace, they are well formed, and the download directory changes by
    their writes only. *)
Definition logged {A} (R : Remote) (D : Disk) (w : World) (r : Outcome A * World)
    : Prop :=
  exists events,
    trace r.2 = trace w ++ events
    /\ downloads_dir r.2 = apply_writes events (downloads_dir w)
    /\ log_ok R D (trace w) (downloads_dir w) events (failure r.1).

(** A remote API whose search answers with [items] and whose downloads
    all fail. *)
Definition remote_without_downloads (items : option (list FilingItem)) : Remote :=
  {| http_post := fun _ _ _ => inr {| resultCount := Some 1; storiResultItems := items |};
     http_get := fun _ _ _ => inl RequestException |}.

(** A world in which the computed name of [dated_item] is taken. *)
Definition used_world : World :=
  {| downloads_dir :=
       {[ lit "ACACIA_PHARMA_GROUP_213800SLDKXWKT6E3381_AnnualReport_2022-04-29.pdf"
            := [Byte.x01] ]};
     issuers_file := Some (lit "[...]");
     trace := [] |}.

(** The request [ev], sent after the events [prior], failed with [e]. *)
Definition failed (R : Remote) (prior : list Event) (ev : Event) (e : Exception) : Prop :=
  match ev with
  | EvPost url body => http_post R prior url body = inl e
  | EvGet url file_data_id => http_get R prior url file_data_id = inl e
  | EvWrite _ _ => False
  end.

(** The body of the search for an issuer in [main]. *)
Definition issuer_search (issuer : Issuer) : SearchPayload :=
  search_payload_for (issuer_id issuer) DOCUMENT_TYPE_ANNUAL (lit "2011-01-01").

(** What a piece of the loop over the issuers searches, when [payloads]
    are the searches of the issuers still to come: a prefix of them, in
    order, and all of them if it returns below the cap; its counter does
    not decrease. *)
Definition searched (payloads : list SearchPayload) (MAX c : Z)
    (w : World) (r : Outcome Z * World) : Prop :=
  exists events,
    trace r.2 = trace w ++ events
    /\ post_bodies events `prefix_of` payloads
    /\ (forall c', r.1 = Ok c' ->
          c <= c' /\ (c' < MAX -> post_bodies events = payloads)).

(** A raw issuer without [companyId]. *)
Definition nameless_issuer : RawIssuer :=
  {[ "abbreviation"%string := Some (lit "NO ID") ]}.
(** * Properties *)

(** ** Characters and strings *)

(** Case analysis on the comparisons of a goal about character classes. *)
Ltac char_cases :=
  repeat match goal with
         | |- context [N.leb ?a ?b] =>
             destruct (N.leb_spec a b); try (exfalso; lia)
         | |- context [N.ltb ?a ?b] =>
             destruct (N.ltb_spec a b); try (exfalso; lia)
         | |- context [N.eqb ?a ?b] =>
             destruct (N.eqb_spec a b); try (exfalso; lia)
         | H : context [N.leb ?a ?b] |- _ =>
             destruct (N.leb_spec a b); try (exfalso; lia)
         | H : context [N.ltb ?a ?b] |- _ =>
             destruct (N.ltb_spec a b); try (exfalso; lia)
         | H : context [N.eqb ?a ?b] |- _ =>
             destruct (N.eqb_spec a b); try (exfalso; lia)
         end;
  simpl in *; try congruence; try lia.

Ltac char_solve :=
  unfold is_filename_char, is_space, ascii_upper, ascii_lower in *;
  unfold is_ascii, is_ascii_upper, is_ascii_lower, is_ascii_digit, in_range in *;
  char_cases.

Lemma filename_char_ascii c : is_filename_char c = true -> is_ascii c = true.
Proof. intros H. char_solve. Qed.

Lemma filename_char_not_space c : is_filename_char c = true -> is_space c = false.
Proof. intros H. char_solve. Qed.

Lemma filename_char_not_blank c : is_filename_char c = true -> (c =? 32)%N = false.
Proof. intros H. char_solve. Qed.

Lemma filename_char_upper c :
  is_filename_char c = true -> is_filename_char (ascii_upper c) = true.
Proof. intros H. char_solve. Qed.

Lemma lstrip_fixed s : Forall (fun c => is_space c = false) s -> lstrip s = s.
Proof. destruct 1 as [|c s Hc _]; simpl; [done|]. by rewrite Hc. Qed.

Lemma strip_fixed s : Forall (fun c => is_space c = false) s -> strip s = s.
Proof.
  intros H. unfold strip, rstrip. rewrite (lstrip_fixed s H).
  rewrite lstrip_fixed; [apply rev_involutive|].
  by apply Forall_rev.
Qed.

Lemma replace_char_fixed old new s :
  Forall (fun c => (c =? old)%N = false) s -> replace_char old new s = s.
Proof.
  unfold replace_char. induction 1 as [|c s Hc _ IH]; simpl; [done|].
  by rewrite Hc, IH.
Qed.

Lemma re_sub_invalid_fixed s :
  Forall (fun c => is_filename_char c = true) s -> re_sub_invalid s = s.
Proof.
  unfold re_sub_invalid. induction 1 as [|c s Hc _ IH]; simpl; [done|].
  by rewrite Hc, IH.
Qed.

Lemma re_sub_invalid_chars s :
  Forall (fun c => is_filename_char c = true) (re_sub_invalid s).
Proof.
  unfold re_sub_invalid. induction s as [|c s IH]; simpl; [constructor|].
  destruct (is_filename_char c) eqn:Hc; [by constructor|done].
Qed.

Lemma unknown_chars : Forall (fun c => is_filename_char c = true) (lit "UNKNOWN").
Proof. repeat constructor. Qed.

(** The sanitizer returns a non-empty string over the class. *)
Lemma sanitize_chars text :
  Forall (fun c => is_filename_char c = true) (sanitize_for_filename text).
Proof.
  unfold sanitize_for_filename. destruct text as [|c s]; [apply unknown_chars|].
  pose proof (re_sub_invalid_chars (replace_char 32 95 (strip (c :: s)))) as H.
  destruct (re_sub_invalid _); [apply unknown_chars|exact H].
Qed.

Lemma sanitize_nonempty text : sanitize_for_filename text <> [].
Proof.
  unfold sanitize_for_filename. destruct text as [|c s]; [done|].
  by destruct (re_sub_invalid _).
Qed.

(** A non-empty string over the class is left as it is. *)
Lemma sanitize_fixed s :
  s <> [] -> Forall (fun c => is_filename_char c = true) s ->
  sanitize_for_filename s = s.
Proof.
  intros Hne Hs. unfold sanitize_for_filename.
  destruct s as [|c s]; [done|].
  rewrite strip_fixed by (eapply Forall_impl; [exact Hs|apply filename_char_not_space]).
  rewrite replace_char_fixed by (eapply Forall_impl; [exact Hs|apply filename_char_not_blank]).
  by rewrite re_sub_invalid_fixed.
Qed.

(** On a string over the class, [upper] is the ASCII mapping, whatever the
    tables say. *)
Lemma upper_filename_chars U s :
  Forall (fun c => is_filename_char c = true) s ->
  upper U s = List.map ascii_upper s.
Proof.
  unfold upper. induction 1 as [|c s Hc _ IH]; simpl; [done|].
  by rewrite (filename_char_ascii c Hc), IH.
Qed.

Lemma startswith_app p s : startswith (p ++ s) p = true.
Proof.
  induction p as [|a p IH]; simpl; [done|]. by rewrite N.eqb_refl, IH.
Qed.

Lemma startswith_prefix s p : startswith s p = true <-> exists t, s = p ++ t.
Proof.
  revert s. induction p as [|a p IH]; intros s; simpl.
  - split; [by exists s|done].
  - destruct s as [|b s].
    + split; [done|]. by intros [t Ht].
    + rewrite andb_true_iff, IH, N.eqb_eq. split.
      * intros [-> [t ->]]. eauto.
      * intros [t Ht]. simplify_eq. eauto.
Qed.

Lemma endswith_suffix s p : endswith s p = true <-> exists t, s = t ++ p.
Proof.
  unfold endswith. rewrite startswith_prefix. split.
  - intros [t Ht]. exists (rev t).
    rewrite <- (rev_involutive s), Ht, rev_app_distr. by rewrite rev_involutive.
  - intros [t ->]. exists (rev t). by rewrite rev_app_distr.
Qed.

(** ** The sanitizer and the file names *)

Lemma lstrip_Forall (P : N -> Prop) s : Forall P s -> Forall P (lstrip s).
Proof.
  induction 1 as [|c s Hc Hs IH]; simpl; [constructor|].
  destruct (is_space c); [exact IH|by constructor].
Qed.

Lemma strip_Forall (P : N -> Prop) s : Forall P s -> Forall P (strip s).
Proof.
  intros H. unfold strip, rstrip.
  apply Forall_rev, lstrip_Forall, Forall_rev, lstrip_Forall, H.
Qed.

Lemma re_sub_invalid_none s :
  Forall (fun c => is_filename_char c = false) s -> re_sub_invalid s = [].
Proof.
  unfold re_sub_invalid. induction 1 as [|c s Hc _ IH]; simpl; [done|].
  by rewrite Hc.
Qed.

(** C6 (as amended).  The sanitizer is idempotent, and a string whose
    characters are all outside [[A-Za-z0-9_-]] and in which no space is
    left after trimming is sanitized to "UNKNOWN" (so is the empty
    string). *)
Theorem sanitize_idempotent_unknown :
  (forall x : pystr,
     sanitize_for_filename (sanitize_for_filename x) = sanitize_for_filename x) /\
  (forall x : pystr,
     Forall (fun c => is_filename_char c = false) x ->
     32%N ∉ strip x ->
     sanitize_for_filename x = lit "UNKNOWN").
Proof.
  split.
  - intros x. apply sanitize_fixed; [apply sanitize_nonempty|apply sanitize_chars].
  - intros x Hx Hblank. unfold sanitize_for_filename.
    destruct x as [|c s]; [done|].
    rewrite replace_char_fixed.
    + by rewrite re_sub_invalid_none by (by apply strip_Forall).
    + apply Forall_forall. intros a Ha. apply N.eqb_neq. intros ->.
      apply Hblank. by apply list_elem_of_In.
Qed.

Lemma sanitize_idempotent_unknown_witness :
  sanitize_for_filename (lit " (!) ") = lit "UNKNOWN".
Proof.
  apply (proj2 sanitize_idempotent_unknown).
  - repeat constructor.
  - vm_compute. intros H. repeat (apply elem_of_cons in H as [H|H]; [discriminate H|]).
    by apply elem_of_nil in H.
Defined.

(** C6, the claim as written fails: parentheses around a space are three
    characters outside the class, and the sanitizer returns an underscore. *)
Lemma sanitize_all_invalid_counterexample :
  Forall (fun c => is_filename_char c = false) (lit "( )") /\
  sanitize_for_filename (lit "( )") = lit "_" /\
  sanitize_for_filename (lit "( )") <> lit "UNKNOWN".
Proof. split; [repeat constructor|]. split; [reflexivity|discriminate]. Qed.

Lemma build_output_filename_eq U company_name lei publication_iso :
  build_output_filename U company_name lei publication_iso =
    List.map ascii_upper (sanitize_for_filename company_name) ++ lit "_"
      ++ sanitize_for_filename lei ++ lit "_AnnualReport_"
      ++ date_part publication_iso ++ lit ".pdf".
Proof.
  unfold build_output_filename.
  by rewrite upper_filename_chars by apply sanitize_chars.
Qed.

(** C4.  The file name is the company part, sanitized then put in upper
    case letter by letter, the LEI part, sanitized only, the literal
    "AnnualReport" and the date part, joined by underscores and followed
    by ".pdf"; it depends on the three arguments only, not on the case
    tables of the runtime; and the example of the docstring holds. *)
Theorem build_output_filename_format :
  (forall U company_name lei publication_iso,
     build_output_filename U company_name lei publication_iso =
       List.map ascii_upper (sanitize_for_filename company_name) ++ lit "_"
         ++ sanitize_for_filename lei ++ lit "_AnnualReport_"
         ++ date_part publication_iso ++ lit ".pdf") /\
  (forall U U' company_name lei publication_iso,
     build_output_filename U company_name lei publication_iso =
     build_output_filename U' company_name lei publication_iso) /\
  (forall U,
     build_output_filename U (lit "Acacia Pharma Group") (lit "213800SLDKXWKT6E3381")
       (lit "2022-04-29T10:00:00Z") =
     lit "ACACIA_PHARMA_GROUP_213800SLDKXWKT6E3381_AnnualReport_2022-04-29.pdf").
Proof.
  split; [apply build_output_filename_eq|]. split.
  - intros. by rewrite !build_output_filename_eq.
  - intros. rewrite build_output_filename_eq. reflexivity.
Qed.

Lemma endswith_app s p : endswith (s ++ p) p = true.
Proof. apply endswith_suffix. by exists s. Qed.

Lemma safe_of_filename_char s :
  Forall (fun c => is_filename_char c = true) s ->
  Forall (fun c => is_safe_char c = true) s.
Proof.
  intros H. eapply Forall_impl; [exact H|].
  intros c Hc. unfold is_safe_char. by rewrite Hc.
Qed.

(** C10 (as amended).  The sanitizer returns a non-empty string over
    [[A-Za-z0-9_-]]; the file name is not empty and ends with ".pdf"; and
    it stays within [[A-Za-z0-9_.-]] when the date part, which is copied
    from the timestamp as it is, does. *)
Theorem filename_characters :
  (forall text,
     sanitize_for_filename text <> [] /\
     Forall (fun c => is_filename_char c = true) (sanitize_for_filename text)) /\
  (forall U company_name lei publication_iso,
     let name := build_output_filename U company_name lei publication_iso in
     name <> [] /\
     endswith name (lit ".pdf") = true /\
     (Forall (fun c => is_safe_char c = true) (date_part publication_iso) ->
      Forall (fun c => is_safe_char c = true) name)).
Proof.
  split; [intros text; split; [apply sanitize_nonempty|apply sanitize_chars]|].
  intros U company_name lei publication_iso name. subst name.
  rewrite build_output_filename_eq. split; [|split].
  - pose proof (sanitize_nonempty company_name) as Hne.
    destruct (sanitize_for_filename company_name); [by destruct Hne|discriminate].
  - rewrite !app_assoc. apply endswith_app.
  - intros Hdate. rewrite !Forall_app. repeat split.
    + apply safe_of_filename_char, Forall_map.
      eapply Forall_impl; [apply sanitize_chars|]. apply filename_char_upper.
    + repeat constructor.
    + apply safe_of_filename_char, sanitize_chars.
    + repeat constructor.
    + exact Hdate.
    + repeat constructor.
Qed.

Lemma filename_characters_witness :
  Forall (fun c => is_safe_char c = true)
    (build_output_filename sample_tables (lit "Acacia Pharma Group")
       (lit "213800SLDKXWKT6E3381") (lit "2022-04-29T10:00:00Z")).
Proof.
  apply (proj2 filename_characters). vm_compute. repeat constructor.
Defined.

(** C10, the claim as written fails: the characters of the timestamp
    before its first "T" are copied into the name, here a space and two
    slashes. *)
Lemma filename_characters_counterexample :
  build_output_filename sample_tables (lit "Acacia") (lit "2138") (lit "29/04/2022 10:00")
    = lit "ACACIA_2138_AnnualReport_29/04/2022 10:00.pdf" /\
  47%N ∈ build_output_filename sample_tables (lit "Acacia") (lit "2138") (lit "29/04/2022 10:00") /\
  is_safe_char 47 = false.
Proof.
  split; [reflexivity|]. split; [|reflexivity].
  apply list_elem_of_In. vm_compute. tauto.
Qed.

(** ** The document filter *)

Lemma filter_letter_lower a :
  a ∈ filter_letters -> ascii_lower a = a /\ is_ascii a = true.
Proof.
  unfold filter_letters. intros H.
  repeat (apply elem_of_cons in H as [->|H]; [by vm_compute|]).
  by apply elem_of_nil in H.
Qed.

Lemma ascii_lower_ascii c : is_ascii (ascii_lower c) = is_ascii c.
Proof. char_solve. Qed.

Lemma sample_tables_agree : tables_agree sample_tables.
Proof.
  intros before c after Hc. simpl.
  assert (forall x, is_ascii x = false -> x ∉ filter_letters) as Hout.
  { intros x Hx Hin. apply filter_letter_lower in Hin as [_ Hin]. congruence. }
  assert (forall x, In x filter_letters -> x <> 107%N /\ x <> 105%N) as Hki.
  { vm_compute. intuition congruence. }
  destruct (N.eqb_spec c 8490) as [->|_]; [|destruct (N.eqb_spec c 304) as [->|_]];
    (split; [done|]); repeat constructor;
    try (by apply Hout);
    intros Hin; apply list_elem_of_In, Hki in Hin; by destruct Hin.
Qed.

Section Lowering.
Variable U : CaseTables.
Hypothesis HU : tables_agree U.

Lemma lower_from_eq t :
  Forall (fun a => a ∈ filter_letters) t ->
  forall before s, lower_from U before s = t <-> eq_nocase s t.
Proof.
  intros Ht before s. revert before t Ht.
  induction s as [|c rest IH]; intros before t Ht; simpl.
  - split; [intros <-; constructor|by inversion 1].
  - destruct (is_ascii c) eqn:Hc.
    + split.
      * intros <-. apply Forall_cons in Ht as [Ha Ht].
        apply filter_letter_lower in Ha as [Ha _].
        constructor; [by rewrite Ha|]. by eapply IH.
      * inversion 1 as [|? a ? t' Hca Hrest]; subst.
        apply Forall_cons in Ht as [Ha Ht].
        apply filter_letter_lower in Ha as [Ha _].
        simpl. f_equal; [congruence|]. by apply IH.
    + destruct (HU before c rest Hc) as [Hne Hout]. split.
      * intros <-. destruct (lower_full U before c rest) as [|x l]; [done|].
        apply Forall_cons in Ht as [Hx _]. apply Forall_cons in Hout as [Hx' _]. done.
      * inversion 1 as [|? a ? t' Hca Hrest]; subst.
        apply Forall_cons in Ht as [Ha _].
        apply filter_letter_lower in Ha as [Ha Ha'].
        rewrite Ha in Hca. rewrite <- Hca, ascii_lower_ascii in Ha'. congruence.
Qed.

Lemma lower_from_suffix t :
  Forall (fun a => a ∈ filter_letters) t ->
  forall before s,
    (exists p, lower_from U before s = p ++ t) <-> ends_nocase s t.
Proof.
  intros Ht before s. split.
  - revert before. induction s as [|c rest IH]; intros before [p Hp].
    + simpl in Hp. symmetry in Hp. apply app_eq_nil in Hp as [_ ->].
      exists [], []. split; [done|constructor].
    + assert ((exists k, lower_from U (before ++ [c]) rest = k ++ t)
              \/ lower_from U before (c :: rest) = t) as [Hk|Hall].
      { simpl in Hp. apply app_eq_inv in Hp as [[k [Hchunk Hk]]|[k [_ Hk]]]; [|eauto].
        destruct k as [|x k]; [left; exists []; by rewrite Hk|]. right.
        assert (x ∈ filter_letters) as Hx.
        { rewrite Hk in Ht. by apply Forall_cons in Ht as [Hx _]. }
        destruct (is_ascii c) eqn:Hc.
        - destruct p as [|y p]; [|by destruct p]. simpl in Hchunk.
          simpl. rewrite Hc, Hk, <- Hchunk. done.
        - destruct (HU before c rest Hc) as [_ Hout]. rewrite Hchunk in Hout.
          apply Forall_app in Hout as [_ Hout]. by apply Forall_cons in Hout as [Hx' _]. }
      * destruct (IH _ Hk) as (pre & suf & -> & Hsuf). by exists (c :: pre), suf.
      * exists [], (c :: rest). split; [done|]. by eapply lower_from_eq.
  - intros (pre & suf & -> & Hsuf). revert before.
    induction pre as [|c pre IH]; intros before.
    + exists []. simpl. by apply lower_from_eq.
    + destruct (IH (before ++ [c])) as [p Hp]. simpl. rewrite Hp.
      eexists. by rewrite app_assoc.
Qed.

Lemma lower_is t s :
  Forall (fun a => a ∈ filter_letters) t ->
  lower U s = t <-> eq_nocase s t.
Proof. intros Ht. by apply lower_from_eq. Qed.

Lemma lower_endswith t s :
  Forall (fun a => a ∈ filter_letters) t ->
  endswith (lower U s) t = true <-> ends_nocase s t.
Proof. intros Ht. rewrite endswith_suffix. by apply lower_from_suffix. Qed.

End Lowering.

Lemma str_or_empty x : str_or x [] = field_text x.
Proof. by destruct x as [[|c s]|]. Qed.

Lemma letters_of_literals :
  Forall (fun a => a ∈ filter_letters) (lit "en")
  /\ Forall (fun a => a ∈ filter_letters) (lit "nl")
  /\ Forall (fun a => a ∈ filter_letters) (lit "pdf")
  /\ Forall (fun a => a ∈ filter_letters) (lit ".pdf").
Proof.
  repeat split; repeat constructor;
    apply list_elem_of_In; vm_compute; tauto.
Qed.

(** The filter of the code accepts the acceptable documents. *)
Lemma document_filter_acceptable U doc :
  tables_agree U -> is_Some (document_filter U doc) <-> acceptable doc.
Proof.
  intros HU. destruct letters_of_literals as (Hen & Hnl & Hpdf & Hdot).
  unfold document_filter, acceptable. rewrite !str_or_empty.
  rewrite <- (lower_is U HU (lit "en")), <- (lower_is U HU (lit "nl")) by done.
  rewrite <- (lower_is U HU (lit "pdf")), <- (lower_endswith U HU (lit ".pdf")) by done.
  destruct (bool_decide _) eqn:Hlang; simpl.
  - apply bool_decide_eq_true in Hlang.
    destruct (bool_decide (lower U (field_text (fileType doc)) = lit "pdf")) eqn:Htype; simpl.
    + apply bool_decide_eq_true in Htype.
      destruct (fileDataId doc) as [[|c s]|]; split;
        try (intros [? ?]; discriminate);
        try (intros (_ & _ & (? & ? & ?)); discriminate).
      * intros _. split; [|split; [by left|by eexists _, _]].
        apply elem_of_cons in Hlang as [?|Hlang]; [by left|].
        apply elem_of_cons in Hlang as [?|Hlang]; [by right|by apply elem_of_nil in Hlang].
      * by eexists.
    + apply bool_decide_eq_false in Htype.
      destruct (endswith _ _) eqn:Hname; simpl.
      * destruct (fileDataId doc) as [[|c s]|]; split;
          try (intros [? ?]; discriminate);
          try (intros (_ & _ & (? & ? & ?)); discriminate).
        -- intros _. split; [|split; [by right|by eexists _, _]].
           apply elem_of_cons in Hlang as [?|Hlang]; [by left|].
           apply elem_of_cons in Hlang as [?|Hlang]; [by right|by apply elem_of_nil in Hlang].
        -- by eexists.
      * split; [intros [? ?]; discriminate|].
        intros (_ & [?|?] & _); [done|congruence].
  - apply bool_decide_eq_false in Hlang. split; [intros [? ?]; discriminate|].
    intros ([Hl|Hl] & _); exfalso; apply Hlang; rewrite Hl; [left|right; left].
Qed.


(** ** Collisions of file names *)

Lemma lit_inj a b : lit a = lit b -> a = b.
Proof.
  unfold lit. intros H.
  rewrite <- (string_of_list_ascii_of_string a), <- (string_of_list_ascii_of_string b).
  f_equal. revert H. generalize (list_ascii_of_string a) (list_ascii_of_string b).
  induction l as [|x l IH]; intros [|y l']; simpl; try done.
  intros H. injection H as Hxy Hl. f_equal; [|by apply IH].
  by rewrite <- (ascii_N_embedding x), <- (ascii_N_embedding y), Hxy.
Qed.

Lemma decimal_inj a b : decimal a = decimal b -> a = b.
Proof.
  unfold decimal. intros H. apply lit_inj in H.
  apply DecimalZ.to_int_inj.
  apply (f_equal NilEmpty.int_of_string) in H.
  rewrite !NilEmpty.isi in H. congruence.
Qed.

#[local] Instance candidate_inj stem ext : Inj (=) (=) (candidate stem ext).
Proof.
  intros j k H. unfold candidate in H.
  apply app_inv_head in H. apply app_inv_head in H.
  rewrite !app_assoc in H. apply app_inv_tail in H. apply app_inv_tail in H.
  by apply decimal_inj.
Qed.

Lemma rpartition_rev_spec sep r acc stem dot ext :
  rpartition_rev sep r acc = (stem, dot, ext) ->
  rev r ++ acc = stem ++ dot ++ ext
  /\ ((sep ∉ acc) -> (sep ∉ ext))
  /\ (dot = [sep] \/ stem = [] /\ dot = []).
Proof.
  revert acc. induction r as [|c r IH]; intros acc; simpl.
  - intros [= <- <- <-]. split; [done|]. split; [done|by right].
  - destruct (N.eqb_spec c sep) as [->|Hc].
    + intros [= <- <- <-]. rewrite <- app_assoc. split; [done|]. split; [done|by left].
    + intros H. apply IH in H as (Heq & Hext & Hdot).
      rewrite <- app_assoc. split; [done|]. split; [|done].
      intros Hacc. apply Hext. rewrite elem_of_cons. intros [->|?]; done.
Qed.

Lemma rpartition_spec sep s stem dot ext :
  rpartition sep s = (stem, dot, ext) ->
  s = stem ++ dot ++ ext /\ (sep ∉ ext) /\ (dot = [sep] \/ stem = [] /\ dot = []).
Proof.
  unfold rpartition. intros H. apply rpartition_rev_spec in H as (Heq & Hext & Hdot).
  rewrite rev_involutive, app_nil_r in Heq. split; [done|].
  split; [|done]. apply Hext, not_elem_of_nil.
Qed.

(** The names built by [build_output_filename] split at their last dot,
    before "pdf". *)
Lemma rpartition_pdf stem : rpartition 46 (stem ++ lit ".pdf") = (stem, lit ".", lit "pdf").
Proof.
  unfold rpartition. rewrite rev_app_distr. simpl. by rewrite rev_involutive.
Qed.

Lemma path_exists_true (D : Disk) (prior : list Event) (files : gmap pystr bytes) path :
  path_exists D prior files path = inr true -> is_Some (files !! path).
Proof.
  unfold path_exists. destruct (stat_error D prior path); [done|].
  destruct (files !! path); [by eexists|done].
Qed.

Lemma path_exists_false (D : Disk) (prior : list Event) (files : gmap pystr bytes) path :
  path_exists D prior files path = inr false -> files !! path = None.
Proof.
  unfold path_exists. destruct (stat_error D prior path); [done|].
  by destruct (files !! path).
Qed.

Lemma path_exists_error (D : Disk) (prior : list Event) (files : gmap pystr bytes) path e :
  path_exists D prior files path = inl e <-> stat_error D prior path = Some e.
Proof.
  unfold path_exists. destruct (stat_error D prior path) as [e'|].
  - split; congruence.
  - by destruct (files !! path).
Qed.

Lemma version_loop_step fuel D prior files stem ext output_path counter :
  version_loop (S fuel) D prior files stem ext output_path counter =
    match path_exists D prior files output_path with
    | inl e => Some (inl e)
    | inr true =>
        version_loop fuel D prior files stem ext (candidate stem ext counter) (counter + 1)
    | inr false => Some (inr output_path)
    end.
Proof. reflexivity. Qed.

(** The loop, entered with the candidate of number [k] as path and
    [k + 1] as counter, stops at the first candidate from [k] on that is
    not found to exist: it returns it when it is found missing, and raises
    when its test raises; it runs out of fuel only when [fuel] candidates
    exist. *)
Lemma version_loop_candidates fuel D prior files stem ext k :
  match version_loop fuel D prior files stem ext (candidate stem ext k) (k + 1) with
  | Some outcome =>
      exists j, k <= j < k + Z.of_nat fuel
        /\ (forall i, k <= i < j ->
              path_exists D prior files (candidate stem ext i) = inr true)
        /\ match outcome with
           | inr path =>
               path = candidate stem ext j
               /\ path_exists D prior files (candidate stem ext j) = inr false
           | inl e => path_exists D prior files (candidate stem ext j) = inl e
           end
  | None =>
      forall i, k <= i < k + Z.of_nat fuel ->
        path_exists D prior files (candidate stem ext i) = inr true
  end.
Proof.
  revert k. induction fuel as [|fuel IH]; intros k.
  - simpl. intros i Hi. lia.
  - rewrite version_loop_step.
    destruct (path_exists D prior files (candidate stem ext k)) as [e|[|]] eqn:Hk.
    + exists k. split; [lia|]. split; [intros i Hi; lia|done].
    + specialize (IH (k + 1)).
      destruct (version_loop _ _ _ _ _ _ _ _) as [outcome|].
      * destruct IH as (j & Hj & Hbelow & Hout).
        exists j. split; [lia|]. split; [|done].
        intros i Hi. destruct (decide (i = k)) as [->|]; [done|]. apply Hbelow. lia.
      * intros i Hi. destruct (decide (i = k)) as [->|]; [done|]. apply IH. lia.
    + exists k. split; [lia|]. split; [intros i Hi; lia|done].
Qed.

(** A directory does not hold more distinct candidates than files. *)
Lemma candidates_bounded (D : Disk) (prior : list Event) (files : gmap pystr bytes) stem ext k n :
  (forall i, k <= i < k + Z.of_nat n ->
     path_exists D prior files (candidate stem ext i) = inr true) ->
  (n <= size files)%nat.
Proof.
  intros Hall.
  set (names := candidate stem ext <$> seqZ k (Z.of_nat n)).
  assert (NoDup names) as Hnodup.
  { apply (NoDup_fmap_2 (candidate stem ext)), NoDup_seqZ. }
  assert (list_to_set names ⊆ (dom files : gset pystr)) as Hsub.
  { intros x Hx. apply elem_of_list_to_set, list_elem_of_fmap in Hx as (i & -> & Hi).
    apply elem_of_seqZ in Hi. apply elem_of_dom.
    by eapply path_exists_true, Hall. }
  apply subseteq_size in Hsub.
  rewrite size_list_to_set, size_dom in Hsub by done.
  unfold names in Hsub. by rewrite length_fmap, length_seqZ, Nat2Z.id in Hsub.
Qed.

(** The bound put on the loop is never reached. *)
Lemma resolve_output_path_total D prior files output_name :
  is_Some (resolve_output_path D prior files output_name).
Proof.
  unfold resolve_output_path.
  destruct (path_exists D prior files output_name) as [e|[|]] eqn:Hbase;
    [by eexists| |by eexists].
  destruct (rpartition 46 output_name) as [[stem dot] ext].
  rewrite version_loop_step, Hbase.
  pose proof (version_loop_candidates (S (size files)) D prior files stem ext 2) as H.
  destruct (version_loop _ _ _ _ _ _ _ _); [by eexists|].
  apply candidates_bounded in H. lia.
Qed.

(** C5 (as amended).  When the test of the computed name says that it
    exists, the candidates "{stem}_v{k}.{ext}" are tested for k = 2, 3,
    ... in turn, each against the directory at that time, up to the first
    one that is not found to exist: when its test says that it is missing
    it is the resolved path, which is never the base name; when its test
    raises, the exception is raised and no path is chosen; and a path is
    chosen whenever no test raises.  [stem] and [ext] are the parts of the
    name around its last dot, which for the names built by
    [build_output_filename] is the dot of ".pdf". *)
Theorem collision_resolution (D : Disk) (prior : list Event) (files : gmap pystr bytes) (output_name : pystr) :
  path_exists D prior files output_name = inr true ->
  exists stem dot ext k,
    rpartition 46 output_name = (stem, dot, ext)
    /\ output_name = stem ++ dot ++ ext
    /\ (forall base, output_name = base ++ lit ".pdf" -> stem = base /\ ext = lit "pdf")
    /\ 2 <= k
    /\ (forall j, 2 <= j < k ->
          path_exists D prior files (candidate stem ext j) = inr true)
    /\ candidate stem ext k <> output_name
    /\ match path_exists D prior files (candidate stem ext k) with
       | inr false =>
           resolve_output_path D prior files output_name
           = Some (inr (candidate stem ext k))
       | inl e => resolve_output_path D prior files output_name = Some (inl e)
       | inr true => False
       end
    /\ ((forall path, stat_error D prior path = None) ->
        resolve_output_path D prior files output_name
        = Some (inr (candidate stem ext k))).
Proof.
  intros Hbase. unfold resolve_output_path. rewrite Hbase.
  destruct (rpartition 46 output_name) as [[stem dot] ext] eqn:Hparts.
  pose proof (rpartition_spec _ _ _ _ _ Hparts) as (Hname & _ & _).
  pose proof (resolve_output_path_total D prior files output_name) as Htotal.
  unfold resolve_output_path in Htotal. rewrite Hbase, Hparts in Htotal.
  rewrite version_loop_step, Hbase in Htotal |- *.
  pose proof (version_loop_candidates (S (size files)) D prior files stem ext 2) as H.
  destruct (version_loop _ _ _ _ _ _ _ _) as [outcome|]; [|by destruct Htotal].
  destruct H as (k & Hk & Hbelow & Hout).
  exists stem, dot, ext, k. split; [done|]. split; [done|]. split.
  { intros base ->. rewrite rpartition_pdf in Hparts. by injection Hparts as <- _ <-. }
  split; [lia|]. split; [done|].
  destruct outcome as [e|path].
  - rewrite Hout. split; [intros Heq; rewrite Heq in Hout; congruence|].
    split; [done|]. intros Hstat. apply path_exists_error in Hout.
    rewrite Hstat in Hout. discriminate.
  - destruct Hout as [-> Hfree]. rewrite Hfree.
    split; [intros Heq; rewrite Heq in Hfree; congruence|]. by split.
Qed.

(** ** The download loops *)

Lemma get_ids_app e1 e2 : get_ids (e1 ++ e2) = get_ids e1 ++ get_ids e2.
Proof. apply omap_app. Qed.

Lemma quota_split (MAX c : Z) (l1 l2 : list pystr) :
  let n := Z.to_nat (MAX - c) in
  take n (l1 ++ l2) =
    take n l1 ++ take (Z.to_nat (MAX - (c + Z.of_nat (length (take n l1))))) l2.
Proof.
  intros n. rewrite take_app. f_equal. f_equal.
  rewrite length_take. subst n. lia.
Qed.

(** An exception of the path resolution is one of a test of existence. *)
Lemma resolve_output_path_error (D : Disk) (prior : list Event)
    (files : gmap pystr bytes) output_name e :
  resolve_output_path D prior files output_name = Some (inl e) ->
  exists path, stat_error D prior path = Some e.
Proof.
  unfold resolve_output_path.
  destruct (path_exists D prior files output_name) as [e'|[|]] eqn:Hbase.
  - intros [= <-]. exists output_name. by apply (path_exists_error D prior files).
  - destruct (rpartition 46 output_name) as [[stem dot] ext].
    rewrite version_loop_step, Hbase.
    pose proof (version_loop_candidates (S (size files)) D prior files stem ext 2) as H.
    destruct (version_loop _ _ _ _ _ _ _ _) as [outcome|]; [|done].
    intros [= ->]. destruct H as (k & _ & _ & Hout).
    exists (candidate stem ext k). by apply (path_exists_error D prior files).
  - done.
Qed.

Section Loops.
Variable U : CaseTables.
Variable R : Remote.
Variable D : Disk.

Lemma in_order_ret MAX c w : downloads_in_order R D MAX c [] w (Ok c, w).
Proof.
  exists []. simpl. rewrite app_nil_r, take_nil.
  split; [done|]. split; [done|]. split; [done|]. split; [|done].
  intros c' [= <-]. simpl. split; [done|lia].
Qed.

Lemma in_order_break MAX c wanted w :
  MAX <= c -> downloads_in_order R D MAX c wanted w (Ok c, w).
Proof.
  intros Hc. exists []. simpl. rewrite app_nil_r.
  replace (Z.to_nat (MAX - c)) with 0%nat by lia. rewrite take_0.
  split; [done|]. split; [done|]. split; [done|]. split; [|done].
  intros c' [= <-]. simpl. split; [done|lia].
Qed.

Lemma in_order_bind MAX c wanted1 wanted2 (m : M Z) (k : Z -> M Z) w :
  downloads_in_order R D MAX c wanted1 w (m w) ->
  (forall c1 w1, downloads_in_order R D MAX c1 wanted2 w1 (k c1 w1)) ->
  downloads_in_order R D MAX c (wanted1 ++ wanted2) w (bind m k w).
Proof.
  intros (ev1 & Htr1 & Hp1 & Hpre1 & Hok1 & Hx1) Hk. unfold bind.
  destruct (m w) as [[c1|e] w1]; simpl in *.
  - destruct (Hok1 c1 eq_refl) as [Hids1 ->].
    destruct (Hk (c + Z.of_nat (length (take (Z.to_nat (MAX - c)) wanted1))) w1)
      as (ev2 & Htr2 & Hp2 & Hpre2 & Hok2 & Hx2).
    exists (ev1 ++ ev2). unfold downloads_in_order. simpl.
    rewrite quota_split, get_ids_app, Hids1.
    split; [by rewrite Htr2, Htr1, app_assoc|].
    split; [by apply Forall_app|].
    split; [by apply prefix_app|].
    split; [|done].
    intros c' Hc'. destruct (Hok2 c' Hc') as [-> ->].
    split; [done|]. rewrite length_app. lia.
  - exists ev1. rewrite quota_split.
    split; [done|]. split; [done|]. split; [by apply prefix_app_r|].
    split; [done|]. done.
Qed.

Lemma download_file_run file_data_id w :
  download_file R file_data_id w =
    (match http_get R (trace w) (BASE_URL ++ STORI_DOWNLOAD_ENDPOINT) file_data_id with
     | inl e => Raise e
     | inr content => Ok content
     end,
     record (EvGet (BASE_URL ++ STORI_DOWNLOAD_ENDPOINT) file_data_id) w).
Proof. unfold download_file. by destruct (http_get _ _ _ _). Qed.

Lemma download_document_in_order MAX company_name lei publication_iso doc c w :
  c < MAX ->
  downloads_in_order R D MAX c (option_list (document_filter U doc)) w
    (download_document U R D company_name lei publication_iso doc c w).
Proof.
  intros Hc. unfold download_document.
  destruct (document_filter U doc) as [file_data_id|]; [|apply in_order_ret].
  destruct (resolve_output_path_total D (trace w) (downloads_dir w)
              (build_output_filename U company_name lei publication_iso))
    as [[e|output_path] Hpath]; rewrite Hpath.
  { exists []. rewrite app_nil_r. split; [done|]. split; [done|].
    split; [apply prefix_nil|]. split; [done|].
    intros e' [= <-]. right. left. apply resolve_output_path_error in Hpath as [path ?].
    by eexists _, _. }
  unfold bind. rewrite download_file_run. unfold downloads_in_order.
  rewrite (take_ge (option_list (Some file_data_id))) by (cbn; lia).
  set (url := BASE_URL ++ STORI_DOWNLOAD_ENDPOINT).
  destruct (http_get R (trace w) url file_data_id) as [e|content] eqn:Hget.
  - exists [EvGet url file_data_id].
    split; [done|]. split; [by repeat constructor|]. split; [done|].
    split; [done|]. intros e' [= <-]. left. eauto.
  - unfold write_bytes.
    destruct (open_error D (trace (record (EvGet url file_data_id) w)) output_path)
      as [e|] eqn:Hopen.
    + exists [EvGet url file_data_id].
      split; [done|]. split; [by repeat constructor|]. split; [done|].
      split; [done|]. intros e' [= <-]. right. right. eauto.
    + exists [EvGet url file_data_id; EvWrite output_path content].
      split; [cbn; by rewrite <- app_assoc|]. split; [by repeat constructor|].
      split; [done|]. split; [|done]. intros c' [= <-]. split; [done|]. cbn. lia.
Qed.

Lemma omap_cons_list {A B} (f : A -> option B) x l :
  omap f (x :: l) = option_list (f x) ++ omap f l.
Proof. simpl. by destruct (f x). Qed.

Lemma documents_loop_in_order MAX company_name lei publication_iso documents c w :
  downloads_in_order R D MAX c (omap (document_filter U) documents) w
    (documents_loop U R D MAX company_name lei publication_iso documents c w).
Proof.
  revert c w. induction documents as [|doc rest IH]; intros c w.
  - apply in_order_ret.
  - cbn [documents_loop]. destruct (Z.geb_spec c MAX) as [Hc|Hc].
    + apply in_order_break. lia.
    + rewrite omap_cons_list. apply in_order_bind; [|done].
      by apply download_document_in_order.
Qed.

Lemma items_loop_in_order MAX items c w :
  downloads_in_order R D MAX c
    (omap (document_filter U) (flat_map item_documents items)) w
    (items_loop U R D MAX items c w).
Proof.
  revert c w. induction items as [|item rest IH]; intros c w.
  - apply in_order_ret.
  - cbn [items_loop]. destruct (Z.geb_spec c MAX) as [Hc|Hc].
    + apply in_order_break. lia.
    + cbn [flat_map]. rewrite omap_app. apply in_order_bind; [|done].
      apply documents_loop_in_order.
Qed.

End Loops.

(** ** The downloads of one issuer, and of the run *)

Section Issuer.
Variable U : CaseTables.
Variable R : Remote.
Variable D : Disk.

Lemma fetch_stori_results_run search_payload w :
  fetch_stori_results R search_payload w =
    (match http_post R (trace w) (BASE_URL ++ STORI_RESULT_ENDPOINT) search_payload with
     | inl e => Raise e
     | inr data => Ok data
     end,
     record (EvPost (BASE_URL ++ STORI_RESULT_ENDPOINT) search_payload) w).
Proof.
  unfold fetch_stori_results, post_json. by destruct (http_post _ _ _ _).
Qed.

Lemma download_for_issuer_at_cap company_id document_type_id publication_start
    max_downloads already_downloaded w :
  max_downloads <= already_downloaded ->
  download_for_issuer U R D company_id document_type_id publication_start
    max_downloads already_downloaded w = (Ok already_downloaded, w).
Proof.
  intros H. unfold download_for_issuer.
  by destruct (Z.geb_spec already_downloaded max_downloads); [|lia].
Qed.

Lemma download_for_issuer_search company_id document_type_id publication_start
    max_downloads already_downloaded w :
  already_downloaded < max_downloads ->
  let search_payload := search_payload_for company_id document_type_id publication_start in
  let w' := record (EvPost (BASE_URL ++ STORI_RESULT_ENDPOINT) search_payload) w in
  download_for_issuer U R D company_id document_type_id publication_start
    max_downloads already_downloaded w =
    match http_post R (trace w) (BASE_URL ++ STORI_RESULT_ENDPOINT) search_payload with
    | inl e => (Raise e, w')
    | inr results =>
        items_loop U R D max_downloads (list_or (storiResultItems results))
          already_downloaded w'
    end.
Proof.
  intros H search_payload w'. unfold download_for_issuer.
  destruct (Z.geb_spec already_downloaded max_downloads); [lia|].
  unfold bind. rewrite fetch_stori_results_run.
  by destruct (http_post _ _ _ _).
Qed.

Lemma downloads_app e1 e2 : downloads (e1 ++ e2) = downloads e1 + downloads e2.
Proof. unfold downloads. rewrite get_ids_app, length_app. lia. Qed.

Lemma posts_below_none MAX c events :
  Forall (fun ev => is_post ev = false) events -> posts_below MAX c events.
Proof.
  intros Hnone before url body after ->.
  apply Forall_app in Hnone as [_ Hnone]. by apply Forall_cons in Hnone as [? _].
Qed.

Lemma posts_below_cons MAX c url body events :
  c < MAX -> posts_below MAX c events -> posts_below MAX c (EvPost url body :: events).
Proof.
  intros Hc Hbelow before url' body' after Heq.
  destruct before as [|ev before]; simpl in Heq.
  - unfold downloads. simpl. lia.
  - injection Heq as <- Heq. apply Hbelow in Heq. by unfold downloads in *.
Qed.

Lemma posts_below_app MAX c e1 e2 :
  posts_below MAX c e1 -> posts_below MAX (c + downloads e1) e2 ->
  posts_below MAX c (e1 ++ e2).
Proof.
  intros H1 H2 before url body after Heq.
  apply app_eq_inv in Heq as [(k & -> & Hk)|(k & -> & ->)].
  - destruct k as [|ev k]; simpl in Hk.
    + specialize (H2 [] url body after (eq_sym Hk)).
      rewrite downloads_app in H2. unfold downloads in H2 |- *. simpl in H2. lia.
    + injection Hk as <- _. by apply (H1 before url body k).
  - rewrite downloads_app. specialize (H2 k url body after eq_refl). lia.
Qed.

Lemma capped_of_in_order MAX c wanted w r :
  downloads_in_order R D MAX c wanted w r -> capped MAX c w r.
Proof.
  intros (events & Htr & Hnone & Hpre & Hok & _). exists events.
  split; [done|]. split; [by apply posts_below_none|].
  apply prefix_length in Hpre. rewrite length_take in Hpre. split.
  - unfold downloads. lia.
  - intros c' Hc'. destruct (Hok c' Hc') as [Hids ->]. unfold downloads. by rewrite Hids.
Qed.

Lemma capped_after_post MAX c url body w r :
  c < MAX -> capped MAX c (record (EvPost url body) w) r -> capped MAX c w r.
Proof.
  intros Hc (events & Htr & Hbelow & Hcap & Hok).
  exists (EvPost url body :: events).
  split; [by rewrite Htr; cbn; rewrite <- app_assoc|].
  split; [by apply posts_below_cons|]. done.
Qed.

Lemma capped_bind MAX c (m : M Z) (k : Z -> M Z) w :
  capped MAX c w (m w) ->
  (forall c1 w1, capped MAX c1 w1 (k c1 w1)) ->
  capped MAX c w (bind m k w).
Proof.
  intros (e1 & Htr1 & Hb1 & Hcap1 & Hok1) Hk. unfold bind.
  destruct (m w) as [[c1|e] w1]; simpl in *.
  - rewrite (Hok1 c1 eq_refl) in *.
    destruct (Hk (c + downloads e1) w1) as (e2 & Htr2 & Hb2 & Hcap2 & Hok2).
    exists (e1 ++ e2). rewrite downloads_app.
    split; [by rewrite Htr2, Htr1, app_assoc|].
    split; [by apply posts_below_app|]. split; [lia|].
    intros c' Hc'. rewrite (Hok2 c' Hc'). lia.
  - by exists e1.
Qed.

Lemma download_for_issuer_capped company_id document_type_id publication_start MAX c w :
  capped MAX c w
    (download_for_issuer U R D company_id document_type_id publication_start MAX c w).
Proof.
  destruct (Z.le_gt_cases MAX c) as [Hc|Hc].
  - rewrite download_for_issuer_at_cap by done.
    eapply capped_of_in_order, (in_order_break R D _ _ []). done.
  - rewrite download_for_issuer_search by done.
    destruct (http_post _ _ _ _) as [e|results];
      apply (capped_after_post MAX c (BASE_URL ++ STORI_RESULT_ENDPOINT)
               (search_payload_for company_id document_type_id publication_start));
      try done.
    + exists []. rewrite app_nil_r. split; [done|].
      split; [by apply posts_below_none|]. unfold downloads. simpl.
      split; [lia|done].
    + eapply capped_of_in_order, items_loop_in_order.
Qed.

Lemma issuers_loop_at_cap max_downloads issuers total_downloads w :
  max_downloads <= total_downloads ->
  issuers_loop U R D max_downloads issuers total_downloads w = (Ok total_downloads, w).
Proof.
  intros H. destruct issuers as [|issuer rest]; [done|]. cbn [issuers_loop].
  by destruct (Z.geb_spec total_downloads max_downloads); [|lia].
Qed.

Lemma issuers_loop_capped MAX issuers c w :
  capped MAX c w (issuers_loop U R D MAX issuers c w).
Proof.
  revert c w. induction issuers as [|issuer rest IH]; intros c w.
  - eapply capped_of_in_order, in_order_ret.
  - cbn [issuers_loop]. destruct (Z.geb_spec c MAX) as [Hc|Hc].
    + eapply capped_of_in_order, (in_order_break R D _ _ []). lia.
    + apply capped_bind; [apply download_for_issuer_capped|done].
Qed.

Variable J : Json.

Lemma ensure_issuer_file_trace w : trace (ensure_issuer_file J w).2 = trace w.
Proof.
  unfold ensure_issuer_file. destruct (issuers_file w); [|done].
  by destruct (json_loads J _).
Qed.

(** The run of [main]: its download requests stay within [MAX_DOWNLOADS],
    and its searches are issued below it. *)
Lemma main_capped w :
  exists events,
    trace (main U R D J w).2 = trace w ++ events
    /\ downloads events <= MAX_DOWNLOADS
    /\ posts_below MAX_DOWNLOADS 0 events.
Proof.
  unfold main, bind. pose proof (ensure_issuer_file_trace w) as Htr.
  destruct (ensure_issuer_file J w) as [[issuers|e] w1]; simpl in Htr.
  - destruct issuers as [|issuer rest].
    + exists []. rewrite app_nil_r. split; [done|]. split; [done|].
      by apply posts_below_none.
    + destruct (issuers_loop_capped MAX_DOWNLOADS (issuer :: rest) 0 w1)
        as (events & Hev & Hbelow & Hle & _).
      exists events. rewrite <- Htr. unfold MAX_DOWNLOADS in *.
      destruct (issuers_loop _ _ _ _ _ _ _) as [[total|e] w2]; simpl in *;
        (split; [done|]); (split; [lia|done]).
  - exists []. rewrite app_nil_r. split; [done|]. split; [done|].
    by apply posts_below_none.
Qed.

End Issuer.

(** C1.  For a cap that is not negative: the per-issuer routine entered
    with the counter at the cap returns it at once, without touching the
    world, and so does the loop over the issuers; and in a run over any
    sequence of issuers, started at zero, the download requests never
    exceed the cap, every search request is issued while the downloads
    made before it are below the cap, and the total returned is the
    number of downloads. *)
Theorem download_cap U R D (max_downloads : Z) :
  0 <= max_downloads ->
  (forall company_id document_type_id publication_start already_downloaded w,
     max_downloads <= already_downloaded ->
     download_for_issuer U R D company_id document_type_id publication_start
       max_downloads already_downloaded w = (Ok already_downloaded, w))
  /\ (forall issuers total_downloads w,
        max_downloads <= total_downloads ->
        issuers_loop U R D max_downloads issuers total_downloads w
        = (Ok total_downloads, w))
  /\ (forall issuers w,
        let r := issuers_loop U R D max_downloads issuers 0 w in
        exists events,
          trace r.2 = trace w ++ events
          /\ downloads events <= max_downloads
          /\ (forall before url body after,
                events = before ++ EvPost url body :: after ->
                downloads before < max_downloads)
          /\ (forall total, r.1 = Ok total -> total = downloads events)).
Proof.
  intros Hcap. split; [intros; by apply download_for_issuer_at_cap|].
  split; [intros; by apply issuers_loop_at_cap|].
  intros issuers w r.
  destruct (issuers_loop_capped U R D max_downloads issuers 0 w)
    as (events & Htr & Hbelow & Hle & Hok).
  exists events. split; [done|]. split; [lia|]. split.
  - intros before url body after Heq. specialize (Hbelow _ _ _ _ Heq). lia.
  - intros total Htotal. rewrite (Hok total Htotal). lia.
Qed.

(** C7.  When the answer to the search has no [storiResultItems] (the
    key is missing or null), the routine returns the counter it was given
    and raises nothing, the download directory is as before, no download
    is requested, and the search is the only event. *)
Theorem empty_result_safe U R D company_id document_type_id publication_start
    max_downloads already_downloaded w results :
  http_post R (trace w) (BASE_URL ++ STORI_RESULT_ENDPOINT)
    (search_payload_for company_id document_type_id publication_start) = inr results ->
  storiResultItems results = None ->
  let r := download_for_issuer U R D company_id document_type_id publication_start
             max_downloads already_downloaded w in
  r.1 = Ok already_downloaded
  /\ downloads_dir r.2 = downloads_dir w
  /\ get_ids (trace r.2) = get_ids (trace w)
  /\ (already_downloaded < max_downloads ->
      trace r.2 = trace w ++ [EvPost (BASE_URL ++ STORI_RESULT_ENDPOINT)
                                (search_payload_for company_id document_type_id
                                   publication_start)]).
Proof.
  intros Hpost Hnone r. subst r.
  destruct (Z.le_gt_cases max_downloads already_downloaded) as [Hc|Hc].
  - rewrite download_for_issuer_at_cap by done. repeat split; try done. lia.
  - rewrite download_for_issuer_search, Hpost, Hnone by done. cbn.
    repeat split; try done. rewrite get_ids_app. cbn. by rewrite app_nil_r.
Qed.

(** C9.  After the search, the download requests of the routine follow
    the documents of the response in order, filing item after filing
    item and, within an item, the main documents before the attachments:
    they are the identifiers of the documents that pass the filter, up to
    the room left under the cap; all of them when the routine returns, a
    prefix when it raises; and the routine returns when no download and
    no call to the file system fails. *)
Theorem documents_in_response_order U R D company_id document_type_id publication_start
    max_downloads already_downloaded w results :
  already_downloaded < max_downloads ->
  http_post R (trace w) (BASE_URL ++ STORI_RESULT_ENDPOINT)
    (search_payload_for company_id document_type_id publication_start) = inr results ->
  let wanted :=
    take (Z.to_nat (max_downloads - already_downloaded))
         (omap (document_filter U) (considered results)) in
  let r := download_for_issuer U R D company_id document_type_id publication_start
             max_downloads already_downloaded w in
  exists events,
    trace r.2 = trace w ++ EvPost (BASE_URL ++ STORI_RESULT_ENDPOINT)
                             (search_payload_for company_id document_type_id
                                publication_start) :: events
    /\ Forall (fun ev => is_post ev = false) events
    /\ get_ids events `prefix_of` wanted
    /\ (forall total,
          r.1 = Ok total ->
          get_ids events = wanted
          /\ total = already_downloaded + Z.of_nat (length wanted))
    /\ ((forall prior url file_data_id,
           exists content, http_get R prior url file_data_id = inr content) ->
        (forall prior path, stat_error D prior path = None) ->
        (forall prior path, open_error D prior path = None) ->
        exists total, r.1 = Ok total).
Proof.
  intros Hc Hpost wanted r. subst wanted r.
  rewrite download_for_issuer_search, Hpost by done.
  destruct (items_loop_in_order U R D max_downloads (list_or (storiResultItems results))
              already_downloaded
              (record (EvPost (BASE_URL ++ STORI_RESULT_ENDPOINT)
                         (search_payload_for company_id document_type_id
                            publication_start)) w))
    as (events & Htr & Hnone & Hpre & Hok & Hraise).
  exists events. split; [by rewrite Htr; cbn; rewrite <- app_assoc|].
  split; [done|]. split; [done|]. split; [done|].
  intros Hget Hstat Hopen.
  destruct (items_loop _ _ _ _ _ _ _) as [[total|e] w']; [by eexists|].
  destruct (Hraise e eq_refl)
    as [(prior & url & file_data_id & Hfail)|[(prior & path & Hfail)|(prior & path & Hfail)]].
  - destruct (Hget prior url file_data_id) as [content Hcontent]. congruence.
  - rewrite Hstat in Hfail. discriminate.
  - rewrite Hopen in Hfail. discriminate.
Qed.

(** ** The issuer list *)

Lemma normalize_loop_spec raw issuers :
  Forall has_company_id raw ->
  exists out,
    normalize_loop raw issuers = Ok (issuers ++ out) /\ Forall2 normalized raw out.
Proof.
  intros Hraw. revert issuers.
  induction Hraw as [|issuer rest [company_id Hid] _ IH]; intros issuers.
  - exists []. by rewrite app_nil_r.
  - cbn [normalize_loop]. rewrite Hid.
    destruct (IH (issuers ++
                    [{| issuer_id := company_id;
                        issuer_name :=
                          str_or (default None (issuer !! "abbreviation"%string))
                                 (lit "UNKNOWN") |}]))
      as (out & -> & Hout).
    eexists (_ :: out). rewrite <- app_assoc. split; [done|].
    constructor; [|done]. split; [done|]. cbn [issuer_name].
    by destruct (issuer !! "abbreviation"%string) as [[[|c s]|]|].
Qed.

(** C8.  When the cache file exists and decodes to a list of raw issuers
    that all carry a [companyId], loading it returns, without changing the
    world, one issuer per raw issuer, in the same order: its id is the
    [companyId], its name the [abbreviation] when that is a non-empty
    string and "UNKNOWN" otherwise. *)
Theorem issuer_cache_normalized J w text (raw : list RawIssuer) :
  issuers_file w = Some text ->
  json_loads J text = inr raw ->
  Forall has_company_id raw ->
  exists issuers,
    ensure_issuer_file J w = (Ok issuers, w)
    /\ normalize_issuer_list raw = Ok issuers
    /\ length issuers = length raw
    /\ Forall2 normalized raw issuers.
Proof.
  intros Hfile Hloads Hraw. unfold ensure_issuer_file. rewrite Hfile, Hloads.
  destruct (normalize_loop_spec raw [] Hraw) as (issuers & Hnorm & Hall).
  exists issuers. unfold normalize_issuer_list. rewrite Hnorm.
  split; [done|]. split; [done|]. split; [|done].
  symmetry. by eapply Forall2_length.
Qed.

Lemma issuer_cache_normalized_witness :
  exists issuers,
    ensure_issuer_file sample_json cached_world = (Ok issuers, cached_world)
    /\ normalize_issuer_list default_raw = Ok issuers
    /\ length issuers = length default_raw
    /\ Forall2 normalized default_raw issuers.
Proof.
  apply (issuer_cache_normalized sample_json cached_world (lit "[...]") default_raw).
  - reflexivity.
  - reflexivity.
  - repeat constructor. by eexists.
Defined.

(** ** The date part *)

Lemma split_char_head sep s :
  exists rest,
    s = hd [] (split_char sep s) ++ rest
    /\ (sep ∉ hd [] (split_char sep s))
    /\ (rest = [] \/ exists after, rest = sep :: after).
Proof.
  induction s as [|c s (rest & Hs & Hsep & Hrest)]; simpl.
  - exists []. split; [done|]. split; [apply not_elem_of_nil|by left].
  - destruct (N.eqb_spec c sep) as [->|Hc]; simpl.
    + exists (sep :: s). split; [done|]. split; [apply not_elem_of_nil|right; by eexists].
    + destruct (split_char sep s) as [|f fs]; simpl in *.
      * exists rest. split; [by rewrite Hs at 1|]. split; [|done].
        rewrite elem_of_cons. intros [?|?]; [done|]. by eapply not_elem_of_nil.
      * exists rest. split; [by rewrite Hs at 1|]. split; [|done].
        rewrite elem_of_cons. intros [?|?]; done.
Qed.

(** For a timestamp that is present, the date part is what precedes its
    first "T", and the whole timestamp when it has none. *)
Lemma date_part_present publication_iso :
  publication_iso <> [] ->
  exists rest,
    publication_iso = date_part publication_iso ++ rest
    /\ (84%N ∉ date_part publication_iso)
    /\ (rest = [] \/ exists after, rest = 84%N :: after).
Proof.
  intros Hne. unfold date_part. destruct publication_iso as [|c s]; [done|].
  apply split_char_head.
Qed.

(** C3, what the code does.  For a filing item without timestamp the
    loop passes "UNKNOWN_DATE" to [build_output_filename], which cuts it at
    its first "T" like any timestamp: the date part is "UNKNOWN_DA", and
    the file of the item's document is written under that name. *)
Theorem absent_timestamp_date_part :
  date_part (str_or (datePublication undated_item) (lit "UNKNOWN_DATE"))
    = lit "UNKNOWN_DA"
  /\ written_paths
       (trace (download_for_issuer sample_tables (remote_with (Some [undated_item])) sound_disk
                 None DOCUMENT_TYPE_ANNUAL (lit "2011-01-01") MAX_DOWNLOADS 0
                 empty_world).2)
     = [lit "ACACIA_PHARMA_GROUP_213800SLDKXWKT6E3381_AnnualReport_UNKNOWN_DA.pdf"].
Proof. split; vm_compute; reflexivity. Qed.

(** ** The statements at sample inputs *)

Lemma download_cap_witness :
  let r := issuers_loop sample_tables (remote_with (Some [dated_item])) sound_disk 1
             [ {| issuer_id := Some (lit "i1"); issuer_name := lit "ONE" |};
               {| issuer_id := Some (lit "i2"); issuer_name := lit "TWO" |} ]
             0 empty_world in
  exists events,
    trace r.2 = trace empty_world ++ events
    /\ downloads events <= 1
    /\ (forall before url body after,
          events = before ++ EvPost url body :: after -> downloads before < 1)
    /\ (forall total, r.1 = Ok total -> total = downloads events).
Proof.
  apply (proj2 (proj2 (download_cap sample_tables (remote_with (Some [dated_item])) sound_disk 1
                         ltac:(lia)))).
Defined.

(** With a cap of one, the run over two issuers searches once and
    downloads once. *)
Example one_download_under_cap_one :
  let r := issuers_loop sample_tables (remote_with (Some [dated_item])) sound_disk 1
             [ {| issuer_id := Some (lit "i1"); issuer_name := lit "ONE" |};
               {| issuer_id := Some (lit "i2"); issuer_name := lit "TWO" |} ]
             0 empty_world in
  r.1 = Ok 1
  /\ List.map is_post (trace r.2) = [true; false; false]
  /\ get_ids (trace r.2) = [lit "m1"].
Proof. vm_compute. repeat split; reflexivity. Qed.

Lemma collision_resolution_witness :
  exists stem dot ext k,
    rpartition 46 (lit "ACACIA_2138_AnnualReport_2022-04-29.pdf") = (stem, dot, ext)
    /\ lit "ACACIA_2138_AnnualReport_2022-04-29.pdf" = stem ++ dot ++ ext
    /\ (forall base,
          lit "ACACIA_2138_AnnualReport_2022-04-29.pdf" = base ++ lit ".pdf" ->
          stem = base /\ ext = lit "pdf")
    /\ 2 <= k
    /\ (forall j, 2 <= j < k ->
          path_exists sound_disk [] crowded_directory (candidate stem ext j) = inr true)
    /\ candidate stem ext k <> lit "ACACIA_2138_AnnualReport_2022-04-29.pdf"
    /\ match path_exists sound_disk [] crowded_directory (candidate stem ext k) with
       | inr false =>
           resolve_output_path sound_disk [] crowded_directory
             (lit "ACACIA_2138_AnnualReport_2022-04-29.pdf")
           = Some (inr (candidate stem ext k))
       | inl e =>
           resolve_output_path sound_disk [] crowded_directory
             (lit "ACACIA_2138_AnnualReport_2022-04-29.pdf") = Some (inl e)
       | inr true => False
       end
    /\ ((forall path, stat_error sound_disk [] path = None) ->
        resolve_output_path sound_disk [] crowded_directory
          (lit "ACACIA_2138_AnnualReport_2022-04-29.pdf")
        = Some (inr (candidate stem ext k))).
Proof.
  apply (collision_resolution sound_disk [] crowded_directory
           (lit "ACACIA_2138_AnnualReport_2022-04-29.pdf")).
  vm_compute. reflexivity.
Defined.

(** The directory of the example makes the loop stop at the third version. *)
Example resolve_third_version :
  resolve_output_path sound_disk [] crowded_directory
    (lit "ACACIA_2138_AnnualReport_2022-04-29.pdf")
  = Some (inr (lit "ACACIA_2138_AnnualReport_2022-04-29_v3.pdf")).
Proof. vm_compute. reflexivity. Qed.

(** C5, the claim as written fails: on a file system whose names hold at
    most 255 characters, the computed name of 255 characters exists, its
    second version does not, and no path is chosen: the test of the second
    version, three characters longer, raises. *)
Lemma collision_resolution_counterexample :
  length long_name = 255%nat
  /\ path_exists limited_disk [] long_directory long_name = inr true
  /\ long_directory
       !! candidate (replicate 225 65%N ++ lit "_X_AnnualReport_2022-04-29") (lit "pdf") 2
     = None
  /\ resolve_output_path limited_disk [] long_directory long_name
     = Some (inl (OSError 36)).
Proof. vm_compute. repeat split; reflexivity. Qed.

Lemma empty_result_safe_witness :
  (download_for_issuer sample_tables (remote_with None) sound_disk None DOCUMENT_TYPE_ANNUAL
     (lit "2011-01-01") 5 0 empty_world).1 = Ok 0.
Proof.
  apply (empty_result_safe sample_tables (remote_with None) sound_disk None DOCUMENT_TYPE_ANNUAL
           (lit "2011-01-01") 5 0 empty_world
           {| resultCount := Some 1; storiResultItems := None |});
    reflexivity.
Defined.

Lemma documents_in_response_order_witness :
  exists events,
    get_ids events = [lit "m1"; lit "a1"]
    /\ trace (download_for_issuer sample_tables (remote_with (Some [dated_item])) sound_disk None
                DOCUMENT_TYPE_ANNUAL (lit "2011-01-01") 5 0 empty_world).2
       = EvPost (BASE_URL ++ STORI_RESULT_ENDPOINT)
           (search_payload_for None DOCUMENT_TYPE_ANNUAL (lit "2011-01-01")) :: events.
Proof.
  destruct (documents_in_response_order sample_tables (remote_with (Some [dated_item])) sound_disk
              None DOCUMENT_TYPE_ANNUAL (lit "2011-01-01") 5 0 empty_world
              {| resultCount := Some 1; storiResultItems := Some [dated_item] |}
              ltac:(lia) eq_refl)
    as (events & Htrace & _ & _ & Hok & Hreturns).
  exists events. split; [|exact Htrace].
  destruct Hreturns as [total Htotal]; [intros; by eexists|done|done|].
  destruct (Hok total Htotal) as [-> _]. vm_compute. reflexivity.
Defined.

(** ** The log of the download loops *)

Lemma new_events_app w w' events :
  trace w' = trace w ++ events -> new_events w w' = events.
Proof. intros H. unfold new_events. rewrite H. apply drop_app_length. Qed.

Lemma apply_writes_app e1 e2 dir :
  apply_writes (e1 ++ e2) dir = apply_writes e2 (apply_writes e1 dir).
Proof.
  revert dir. induction e1 as [|ev e1 IH]; intros dir; [done|].
  destruct ev; simpl; apply IH.
Qed.

Lemma log_ok_app R D prior dir e1 e2 f :
  log_ok R D prior dir e1 None ->
  log_ok R D (prior ++ e1) (apply_writes e1 dir) e2 f ->
  log_ok R D prior dir (e1 ++ e2) f.
Proof.
  intros H1. remember None as none eqn:Hnone. revert Hnone.
  induction H1 as [prior dir|prior dir path e Hs|prior dir body e Hp
                  |prior dir body results rest f' Hp _ IH
                  |prior dir id e Hg|prior dir id content path e Hg Ho
                  |prior dir id path content rest f' Hg Hfree Hpdf _ IH];
    intros Hnone H2; try discriminate.
  - by rewrite app_nil_r in H2.
  - simpl. eapply log_post; [done|]. apply IH; [done|].
    by rewrite <- app_assoc.
  - simpl. eapply log_download; try done. apply IH; [done|].
    by rewrite <- app_assoc.
Qed.

Lemma logged_ret {A} R D (a : A) w : logged R D w (ret a w).
Proof.
  exists []. simpl. rewrite app_nil_r. split; [done|]. split; [done|]. constructor.
Qed.

Lemma logged_bind {A B} R D (m : M A) (k : A -> M B) w :
  logged R D w (m w) ->
  (forall a w1, logged R D w1 (k a w1)) ->
  logged R D w (bind m k w).
Proof.
  intros (e1 & Htr1 & Hdir1 & Hlog1) Hk. unfold bind.
  destruct (m w) as [[a|e] w1]; simpl in *; [|by exists e1].
  destruct (Hk a w1) as (e2 & Htr2 & Hdir2 & Hlog2).
  exists (e1 ++ e2). rewrite Htr2, Htr1, Hdir2, Hdir1, apply_writes_app, app_assoc.
  split; [done|]. split; [done|].
  apply log_ok_app; [done|]. by rewrite <- Htr1, <- Hdir1.
Qed.

Lemma candidate_pdf stem k : endswith (candidate stem (lit "pdf") k) (lit ".pdf") = true.
Proof.
  apply endswith_suffix. exists (stem ++ lit "_v" ++ decimal k).
  unfold candidate. rewrite <- app_assoc, <- app_assoc. reflexivity.
Qed.

(** The path chosen does not exist; it ends with ".pdf" when the name
    does; and it is the name itself exactly when the name is free. *)
Lemma resolve_output_path_spec (D : Disk) (prior : list Event)
    (files : gmap pystr bytes) output_name output_path :
  resolve_output_path D prior files output_name = Some (inr output_path) ->
  files !! output_path = None
  /\ (forall base, output_name = base ++ lit ".pdf" ->
        endswith output_path (lit ".pdf") = true)
  /\ (output_path = output_name
      <-> path_exists D prior files output_name = inr false).
Proof.
  unfold resolve_output_path.
  destruct (path_exists D prior files output_name) as [e|[|]] eqn:Hbase; [done| |].
  - destruct (rpartition 46 output_name) as [[stem dot] ext] eqn:Hparts.
    rewrite version_loop_step, Hbase.
    pose proof (version_loop_candidates (S (size files)) D prior files stem ext 2) as H.
    destruct (version_loop _ _ _ _ _ _ _ _) as [outcome|]; [|done].
    intros [= ->]. destruct H as (k & _ & _ & -> & Hfree).
    split; [|split].
    + by eapply path_exists_false.
    + intros base ->. rewrite rpartition_pdf in Hparts.
      injection Hparts as <- _ <-. apply candidate_pdf.
    + split; [|done]. intros Heq. rewrite Heq in Hfree. congruence.
  - intros [= <-]. split; [|split].
    + by eapply path_exists_false.
    + intros base ->. apply endswith_app.
    + done.
Qed.

Lemma build_output_filename_pdf U company_name lei publication_iso :
  exists base, build_output_filename U company_name lei publication_iso = base ++ lit ".pdf".
Proof.
  rewrite build_output_filename_eq, !app_assoc. by eexists.
Qed.

Section Logs.
Variable U : CaseTables.
Variable R : Remote.
Variable D : Disk.

Lemma download_document_logged company_name lei publication_iso doc c w :
  logged R D w (download_document U R D company_name lei publication_iso doc c w).
Proof.
  unfold download_document.
  destruct (document_filter U doc) as [file_data_id|]; [|apply logged_ret].
  destruct (resolve_output_path_total D (trace w) (downloads_dir w)
              (build_output_filename U company_name lei publication_iso))
    as [[e|output_path] Hpath]; rewrite Hpath.
  { apply resolve_output_path_error in Hpath as [path Hpath].
    exists []. rewrite app_nil_r. split; [done|]. split; [done|].
    by eapply log_stat_fail. }
  apply resolve_output_path_spec in Hpath as (Hfree & Hpdf & _).
  destruct (build_output_filename_pdf U company_name lei publication_iso) as [base Hbase].
  specialize (Hpdf base Hbase).
  unfold bind. rewrite download_file_run.
  destruct (http_get R (trace w) _ file_data_id) as [e|content] eqn:Hget.
  - exists [EvGet (BASE_URL ++ STORI_DOWNLOAD_ENDPOINT) file_data_id].
    split; [done|]. split; [done|]. by apply log_get_fail.
  - unfold write_bytes.
    destruct (open_error D _ output_path) as [e|] eqn:Hopen.
    + exists [EvGet (BASE_URL ++ STORI_DOWNLOAD_ENDPOINT) file_data_id].
      split; [done|]. split; [done|]. by eapply log_open_fail.
    + exists [EvGet (BASE_URL ++ STORI_DOWNLOAD_ENDPOINT) file_data_id;
              EvWrite output_path content].
      split; [cbn; by rewrite <- app_assoc|]. split; [done|].
      apply log_download; try done. constructor.
Qed.

Lemma documents_loop_logged MAX company_name lei publication_iso documents c w :
  logged R D w (documents_loop U R D MAX company_name lei publication_iso documents c w).
Proof.
  revert c w. induction documents as [|doc rest IH]; intros c w; [apply logged_ret|].
  cbn [documents_loop]. destruct (c >=? MAX); [apply logged_ret|].
  apply logged_bind; [apply download_document_logged|done].
Qed.

Lemma items_loop_logged MAX items c w : logged R D w (items_loop U R D MAX items c w).
Proof.
  revert c w. induction items as [|item rest IH]; intros c w; [apply logged_ret|].
  cbn [items_loop]. destruct (c >=? MAX); [apply logged_ret|].
  apply logged_bind; [apply documents_loop_logged|done].
Qed.

Lemma download_for_issuer_logged company_id document_type_id publication_start MAX c w :
  logged R D w
    (download_for_issuer U R D company_id document_type_id publication_start MAX c w).
Proof.
  destruct (Z.le_gt_cases MAX c) as [Hc|Hc].
  - rewrite download_for_issuer_at_cap by done. apply logged_ret.
  - rewrite download_for_issuer_search by done.
    set (post := EvPost _ _).
    destruct (http_post _ _ _ _) as [e|results] eqn:Hpost.
    + exists [post]. split; [done|]. split; [done|]. by apply log_post_fail.
    + destruct (items_loop_logged MAX (list_or (storiResultItems results)) c
                  (record post w)) as (events & Htr & Hdir & Hlog).
      exists (post :: events).
      split; [by rewrite Htr; cbn; rewrite <- app_assoc|]. split; [done|].
      by eapply log_post.
Qed.

Lemma issuers_loop_logged MAX issuers c w :
  logged R D w (issuers_loop U R D MAX issuers c w).
Proof.
  revert c w. induction issuers as [|issuer rest IH]; intros c w; [apply logged_ret|].
  cbn [issuers_loop]. destruct (c >=? MAX); [apply logged_ret|].
  apply logged_bind; [apply download_for_issuer_logged|done].
Qed.

Variable J : Json.

Lemma ensure_issuer_file_downloads_dir w :
  downloads_dir (ensure_issuer_file J w).2 = downloads_dir w.
Proof.
  unfold ensure_issuer_file. destruct (issuers_file w); [|done].
  by destruct (json_loads J _).
Qed.

(** The log of [main]: that of its loop over the issuers, or nothing. *)
Lemma main_logged w :
  exists events f,
    trace (main U R D J w).2 = trace w ++ events
    /\ downloads_dir (main U R D J w).2 = apply_writes events (downloads_dir w)
    /\ log_ok R D (trace w) (downloads_dir w) events f.
Proof.
  unfold main, bind. pose proof (ensure_issuer_file_trace J w) as Htr.
  pose proof (ensure_issuer_file_downloads_dir w) as Hdir.
  destruct (ensure_issuer_file J w) as [[issuers|e] w1]; simpl in Htr, Hdir.
  - destruct issuers as [|issuer rest].
    + exists [], None. simpl. rewrite app_nil_r. split; [done|]. split; [done|]. constructor.
    + destruct (issuers_loop_logged MAX_DOWNLOADS (issuer :: rest) 0 w1)
        as (events & Hev & Hwr & Hlog).
      rewrite Htr, Hdir in *.
      destruct (issuers_loop _ _ _ _ _ _ _) as [[total|e] w2]; simpl in *;
        eexists events, _; (split; [done|]); (split; [done|]); exact Hlog.
  - exists [], None. simpl. rewrite app_nil_r. split; [done|]. split; [done|]. constructor.
Qed.

End Logs.

(** ** What a well-formed log tells *)

Lemma log_ok_kept R D prior dir events f :
  log_ok R D prior dir events f -> dir ⊆ apply_writes events dir.
Proof.
  induction 1 as [| | | | | |prior dir id path content rest f Hg Hfree Hpdf _ IH];
    simpl; try done.
  etrans; [|exact IH]. by apply insert_subseteq.
Qed.

Lemma log_ok_written R D prior dir events f :
  log_ok R D prior dir events f ->
  NoDup (written_paths events)
  /\ Forall (fun path => dir !! path = None /\ endswith path (lit ".pdf") = true)
            (written_paths events).
Proof.
  induction 1 as [prior dir|prior dir path e Hs|prior dir body e Hp
                 |prior dir body results rest f Hp _ IH
                 |prior dir id e Hg|prior dir id content path e Hg Ho
                 |prior dir id path content rest f Hg Hfree Hpdf _ [IHdup IHall]];
    simpl; try (split; constructor); try exact IH.
  - intros Hin.
    eapply Forall_forall in IHall as [Hnone _]; [|exact Hin].
    by rewrite lookup_insert_eq in Hnone.
  - done.
  - done.
  - eapply Forall_impl; [exact IHall|].
    intros path' [Hnone Hpdf']. split; [|done].
    by apply lookup_insert_None in Hnone as [? _].
Qed.

Lemma log_ok_size R D prior dir events f :
  log_ok R D prior dir events f ->
  size (apply_writes events dir) = (size dir + length (written_paths events))%nat.
Proof.
  induction 1 as [| | | | | |prior dir id path content rest f Hg Hfree Hpdf _ IH];
    simpl; try lia.
  rewrite IH, map_size_insert_None by done. lia.
Qed.

Lemma log_ok_counts R D prior dir events :
  log_ok R D prior dir events None ->
  length (get_ids events) = length (written_paths events).
Proof.
  remember None as f eqn:Hf. induction 1; simpl; try done; try discriminate; auto.
Qed.

Lemma log_ok_content R D prior dir events f before path content after :
  log_ok R D prior dir events f ->
  events = before ++ EvWrite path content :: after ->
  exists before' file_data_id,
    before = before' ++ [EvGet (BASE_URL ++ STORI_DOWNLOAD_ENDPOINT) file_data_id]
    /\ http_get R (prior ++ before') (BASE_URL ++ STORI_DOWNLOAD_ENDPOINT) file_data_id
       = inr content
    /\ apply_writes events dir !! path = Some content.
Proof.
  intros Hlog. revert before.
  induction Hlog as [prior dir|prior dir path' e Hs|prior dir body e Hp
                    |prior dir body results rest f Hp Hrest IH
                    |prior dir id e Hg|prior dir id content' path' e Hg Ho
                    |prior dir id path' content' rest f Hg Hfree Hpdf Hrest IH];
    intros before Heq.
  - by destruct before.
  - by destruct before.
  - destruct before as [|? [|? ?]]; discriminate.
  - destruct before as [|ev before]; [discriminate|]. injection Heq as <- Heq.
    destruct (IH before Heq) as (before' & file_data_id & -> & Hget & Hlook).
    exists (EvPost (BASE_URL ++ STORI_RESULT_ENDPOINT) body :: before'), file_data_id.
    split; [done|]. split; [|done]. by rewrite <- app_assoc in Hget.
  - destruct before as [|? [|? ?]]; discriminate.
  - destruct before as [|? [|? ?]]; discriminate.
  - destruct before as [|ev1 [|ev2 before]]; [discriminate| |].
    + injection Heq as <- <- <- <-. exists [], id. rewrite app_nil_r.
      split; [done|]. split; [done|]. simpl.
      eapply lookup_weaken; [|by eapply log_ok_kept]. apply lookup_insert_eq.
    + injection Heq as <- <- Heq.
      destruct (IH before Heq) as (before' & file_data_id & -> & Hget & Hlook).
      exists (EvGet (BASE_URL ++ STORI_DOWNLOAD_ENDPOINT) id
                :: EvWrite path' content' :: before'), file_data_id.
      split; [done|]. split; [|done]. by rewrite <- app_assoc in Hget.
Qed.

(** A request of the log that failed is its last event, and its
    exception the failure of the run. *)
Lemma log_ok_failed R D prior dir events f before ev after e :
  log_ok R D prior dir events f ->
  events = before ++ ev :: after ->
  failed R (prior ++ before) ev e ->
  after = [] /\ f = Some e.
Proof.
  intros Hlog. revert before.
  induction Hlog as [prior dir|prior dir path' e' Hs|prior dir body e' Hp
                    |prior dir body results rest f Hp Hrest IH
                    |prior dir id e' Hg|prior dir id content' path' e' Hg Ho
                    |prior dir id path' content' rest f Hg Hfree Hpdf Hrest IH];
    intros before Heq Hfail;
    try set (post_url := BASE_URL ++ STORI_RESULT_ENDPOINT) in *;
    try set (get_url := BASE_URL ++ STORI_DOWNLOAD_ENDPOINT) in *;
    try clearbody post_url; try clearbody get_url.
  - by destruct before.
  - by destruct before.
  - destruct before as [|? [|? ?]]; try discriminate.
    injection Heq as <- <-. rewrite app_nil_r in Hfail. unfold failed in Hfail.
    split; [done|]. congruence.
  - destruct before as [|ev0 before].
    + injection Heq as <- <-. rewrite app_nil_r in Hfail. unfold failed in Hfail. congruence.
    + injection Heq as <- Heq. apply (IH before Heq). by rewrite <- app_assoc.
  - destruct before as [|? [|? ?]]; try discriminate.
    injection Heq as <- <-. rewrite app_nil_r in Hfail. unfold failed in Hfail.
    split; [done|]. congruence.
  - destruct before as [|? [|? ?]]; try discriminate.
    injection Heq as <- <-. rewrite app_nil_r in Hfail. unfold failed in Hfail. congruence.
  - destruct before as [|ev1 [|ev2 before]].
    + injection Heq as <- <-. rewrite app_nil_r in Hfail. unfold failed in Hfail. congruence.
    + injection Heq as <- <- <-. done.
    + injection Heq as <- <- Heq. apply (IH before Heq). by rewrite <- app_assoc.
Qed.

(** ** The issuer list: errors and the default file *)

Lemma normalize_loop_missing raw issuers :
  Exists (fun issuer : RawIssuer => issuer !! "companyId"%string = None) raw ->
  normalize_loop raw issuers = Raise (KeyError "companyId").
Proof.
  intros H. revert issuers. induction raw as [|issuer rest IH]; intros issuers.
  - by apply Exists_nil in H.
  - cbn [normalize_loop]. destruct (issuer !! "companyId"%string) eqn:Hid; [|done].
    apply Exists_cons in H as [H|H]; [congruence|]. by apply IH.
Qed.

Lemma company_id_cases (raw : list RawIssuer) :
  Forall has_company_id raw
  \/ Exists (fun issuer : RawIssuer => issuer !! "companyId"%string = None) raw.
Proof.
  induction raw as [|issuer rest [IH|IH]].
  - left. constructor.
  - destruct (issuer !! "companyId"%string) as [company_id|] eqn:Hid.
    + left. constructor; [by exists company_id|done].
    + right. by left.
  - right. by right.
Qed.

(** On a list of raw issuers, normalizing raises the [KeyError] of
    [companyId] exactly when some raw issuer has no [companyId]. *)
Theorem normalize_issuer_list_key_error (raw : list RawIssuer) :
  normalize_issuer_list raw = Raise (KeyError "companyId")
  <-> Exists (fun issuer : RawIssuer => issuer !! "companyId"%string = None) raw.
Proof.
  unfold normalize_issuer_list.
  destruct (company_id_cases raw) as [Hall|Hsome].
  - destruct (normalize_loop_spec raw [] Hall) as (out & Hout & _). rewrite Hout.
    split; [done|]. intros Hsome. exfalso.
    apply Exists_exists in Hsome as (issuer & Hin & Hnone).
    eapply Forall_forall in Hall as [? Hid]; [|exact Hin]. congruence.
  - by rewrite (normalize_loop_missing raw [] Hsome).
Qed.

Lemma normalize_issuer_list_key_error_witness :
  normalize_issuer_list (default_raw ++ [nameless_issuer]) = Raise (KeyError "companyId").
Proof.
  apply (proj2 (normalize_issuer_list_key_error (default_raw ++ [nameless_issuer]))).
  apply Exists_app. right. by left.
Defined.

(** Without a cache file, [ensure_issuer_file] returns the default
    issuer and leaves the default raw list in the file, touching nothing
    else; when the [json] module reads back what it wrote, loading the
    file again returns the same issuer and changes nothing. *)
Theorem default_issuer_file_round_trip J w :
  issuers_file w = None ->
  let r := ensure_issuer_file J w in
  r.1 = Ok [ {| issuer_id := Some (lit "02285e3c-71e9-496a-8d47-d1408131c44b");
                issuer_name := lit "ACACIA PHARMA GROUP" |} ]
  /\ issuers_file r.2 = Some (json_dumps J default_raw)
  /\ downloads_dir r.2 = downloads_dir w
  /\ trace r.2 = trace w
  /\ (json_loads J (json_dumps J default_raw) = inr default_raw ->
      ensure_issuer_file J r.2 = (r.1, r.2)).
Proof.
  intros Hnone r. subst r. unfold ensure_issuer_file. rewrite Hnone. cbn.
  split; [reflexivity|]. split; [done|]. split; [done|]. split; [done|].
  by intros ->.
Qed.

Lemma default_issuer_file_round_trip_witness :
  let r := ensure_issuer_file sample_json empty_world in
  ensure_issuer_file sample_json r.2 = (r.1, r.2).
Proof.
  apply (default_issuer_file_round_trip sample_json empty_world eq_refl).
  reflexivity.
Defined.

(** [main] stops before any request when the cache file does not decode,
    when it lists no issuer, and when one of its issuers has no
    [companyId]: the world is left as it was. *)
Theorem main_stops_before_any_request U R D J w text :
  issuers_file w = Some text ->
  match json_loads J text with
  | inl e => main U R D J w = (Raise e, w)
  | inr raw =>
      (raw = [] -> main U R D J w = (Ok None, w))
      /\ (Exists (fun issuer : RawIssuer => issuer !! "companyId"%string = None) raw ->
          main U R D J w = (Raise (KeyError "companyId"), w))
  end.
Proof.
  intros Hfile. unfold main, bind, ensure_issuer_file. rewrite Hfile.
  destruct (json_loads J text) as [e|raw]; [done|]. split.
  - by intros ->.
  - intros Hsome. unfold normalize_issuer_list.
    by rewrite (normalize_loop_missing raw [] Hsome).
Qed.

Lemma main_stops_before_any_request_witness :
  main sample_tables (remote_with (Some [dated_item])) sound_disk
    {| json_loads := fun _ => inr []; json_dumps := fun _ => [] |} cached_world
  = (Ok None, cached_world).
Proof.
  apply (main_stops_before_any_request sample_tables (remote_with (Some [dated_item]))
           sound_disk
           {| json_loads := fun _ => inr []; json_dumps := fun _ => [] |}
           cached_world (lit "[...]") eq_refl).
  reflexivity.
Defined.

(** ** The sanitizer and the date part on well-formed input *)

Lemma lstrip_snoc s c : is_space c = false -> lstrip (s ++ [c]) = lstrip s ++ [c].
Proof.
  intros Hc. induction s as [|a s IH]; simpl; [by rewrite Hc|].
  by destruct (is_space a).
Qed.

Lemma lstrip_idem s : lstrip (lstrip s) = lstrip s.
Proof.
  induction s as [|a s IH]; simpl; [done|].
  destruct (is_space a) eqn:Ha; [done|]. simpl. by rewrite Ha.
Qed.

Lemma lstrip_head s : lstrip s = [] \/ exists c t, lstrip s = c :: t /\ is_space c = false.
Proof.
  induction s as [|a s IH]; simpl; [by left|].
  destruct (is_space a) eqn:Ha; [done|]. right. by exists a, s.
Qed.

Lemma rstrip_cons c s : is_space c = false -> rstrip (c :: s) = c :: rstrip s.
Proof.
  intros Hc. unfold rstrip. simpl. rewrite lstrip_snoc by done.
  by rewrite rev_app_distr.
Qed.

Lemma rstrip_idem s : rstrip (rstrip s) = rstrip s.
Proof. unfold rstrip. by rewrite rev_involutive, lstrip_idem. Qed.

Lemma strip_idem s : strip (strip s) = strip s.
Proof.
  unfold strip. destruct (lstrip_head s) as [->|(c & t & -> & Hc)]; [done|].
  rewrite rstrip_cons by done. simpl. rewrite Hc.
  by rewrite <- rstrip_cons, rstrip_idem.
Qed.

(** On a text without surrounding whitespace, made of characters of
    [[A-Za-z0-9_-]] and spaces, the sanitizer only turns the spaces into
    underscores; and whitespace around a text makes no difference to its
    sanitized form. *)
Theorem sanitize_words :
  (forall text,
     text <> [] ->
     strip text = text ->
     Forall (fun c => is_filename_char c = true \/ c = 32%N) text ->
     sanitize_for_filename text = replace_char 32 95 text)
  /\ (forall text, sanitize_for_filename (strip text) = sanitize_for_filename text).
Proof.
  split.
  - intros text Hne Hstrip Hchars. unfold sanitize_for_filename.
    destruct text as [|c s]; [done|]. rewrite Hstrip.
    rewrite re_sub_invalid_fixed; [done|].
    unfold replace_char. apply Forall_map. eapply Forall_impl; [exact Hchars|].
    intros a [Ha| ->]; [|done]. simpl.
    by destruct (N.eqb_spec a 32).
  - intros text. unfold sanitize_for_filename at 1.
    destruct (strip text) as [|c s] eqn:Hstrip.
    + unfold sanitize_for_filename. destruct text; [done|]. by rewrite Hstrip.
    + rewrite <- Hstrip, strip_idem. unfold sanitize_for_filename.
      destruct text; [by rewrite Hstrip in *|done].
Qed.

Lemma sanitize_words_witness :
  sanitize_for_filename (lit "Acacia Pharma Group") = lit "Acacia_Pharma_Group".
Proof.
  apply (proj1 sanitize_words (lit "Acacia Pharma Group")).
  - discriminate.
  - reflexivity.
  - repeat (constructor; [first [left; reflexivity|right; reflexivity]|]).
    constructor.
Defined.

Lemma split_char_hd_before sep field rest :
  sep ∉ field -> hd [] (split_char sep (field ++ sep :: rest)) = field.
Proof.
  induction field as [|c field IH]; intros Hsep; simpl.
  - by rewrite N.eqb_refl.
  - apply not_elem_of_cons in Hsep as [Hc Hsep].
    destruct (N.eqb_spec c sep) as [->|_]; [done|].
    specialize (IH Hsep). by destruct (split_char sep (field ++ sep :: rest)); simpl in *; subst.
Qed.

Lemma split_char_hd_whole sep field :
  sep ∉ field -> hd [] (split_char sep field) = field.
Proof.
  induction field as [|c field IH]; intros Hsep; simpl; [done|].
  apply not_elem_of_cons in Hsep as [Hc Hsep].
  destruct (N.eqb_spec c sep) as [->|_]; [done|].
  specialize (IH Hsep). by destruct (split_char sep field); simpl in *; subst.
Qed.

(** The date part of a timestamp is the text before its first "T", and
    the whole timestamp when it has no "T" and is not empty. *)
Theorem date_part_before_T (date rest : pystr) :
  84%N ∉ date ->
  date_part (date ++ 84%N :: rest) = date
  /\ (date <> [] -> date_part date = date).
Proof.
  intros HT. split.
  - unfold date_part. destruct (date ++ 84%N :: rest) eqn:Heq.
    + by destruct date.
    + rewrite <- Heq. by apply split_char_hd_before.
  - intros Hne. unfold date_part. destruct date as [|c s]; [done|].
    by apply split_char_hd_whole.
Qed.

Lemma date_part_before_T_witness :
  date_part (lit "2022-04-29" ++ 84%N :: lit "10:00:00Z") = lit "2022-04-29".
Proof.
  refine (proj1 (date_part_before_T (lit "2022-04-29") (lit "10:00:00Z") _)).
  intros H. apply list_elem_of_In in H. vm_compute in H.
  repeat (destruct H as [H|H]; [discriminate H|]). exact H.
Defined.

(** A path chosen for a name does not exist in the directory, and it is
    the name itself exactly when the test of the name says that it is
    free; and a path is chosen whenever no test of existence raises. *)
Theorem resolved_path_is_free (D : Disk) (prior : list Event)
    (files : gmap pystr bytes) (output_name : pystr) :
  (forall output_path,
     resolve_output_path D prior files output_name = Some (inr output_path) ->
     files !! output_path = None
     /\ (output_path = output_name
         <-> path_exists D prior files output_name = inr false))
  /\ ((forall path, stat_error D prior path = None) ->
      exists output_path,
        resolve_output_path D prior files output_name = Some (inr output_path)).
Proof.
  split.
  - intros output_path Hpath.
    by apply resolve_output_path_spec in Hpath as (? & _ & ?).
  - intros Hstat.
    destruct (resolve_output_path_total D prior files output_name)
      as [[e|output_path] Hpath]; [|by eexists].
    apply resolve_output_path_error in Hpath as [path Hpath].
    rewrite Hstat in Hpath. discriminate.
Qed.

(** ** Runs: files, counts, failures, searches *)

Lemma post_bodies_app e1 e2 : post_bodies (e1 ++ e2) = post_bodies e1 ++ post_bodies e2.
Proof. apply omap_app. Qed.

Lemma post_bodies_none events :
  Forall (fun ev => is_post ev = false) events -> post_bodies events = [].
Proof.
  induction 1 as [|ev events Hev _ IH]; [done|]. by destruct ev.
Qed.

Lemma post_bodies_cons_post url body events :
  post_bodies (EvPost url body :: events) = body :: post_bodies events.
Proof. reflexivity. Qed.

Section Searches.
Variable U : CaseTables.
Variable R : Remote.
Variable D : Disk.

Lemma download_for_issuer_searched company_id document_type_id publication_start MAX c w :
  searched [search_payload_for company_id document_type_id publication_start] MAX c w
    (download_for_issuer U R D company_id document_type_id publication_start MAX c w).
Proof.
  destruct (Z.le_gt_cases MAX c) as [Hc|Hc].
  - rewrite download_for_issuer_at_cap by done. exists []. simpl. rewrite app_nil_r.
    split; [done|]. split; [apply prefix_nil|]. intros c' [= <-]. split; lia.
  - rewrite download_for_issuer_search by done.
    set (post := EvPost _ _).
    destruct (http_post _ _ _ _) as [e|results].
    + exists [post]. by repeat split.
    + destruct (items_loop_in_order U R D MAX (list_or (storiResultItems results)) c
                  (record post w)) as (events & Htr & Hnone & _ & Hok & _).
      exists (post :: events). split; [by rewrite Htr; cbn; rewrite <- app_assoc|].
      subst post. rewrite post_bodies_cons_post, (post_bodies_none events Hnone).
      split; [done|].
      intros c' Hc'. destruct (Hok c' Hc') as [_ ->]. split; [lia|done].
Qed.

Lemma issuers_loop_searched MAX issuers c w :
  searched (List.map issuer_search issuers) MAX c w (issuers_loop U R D MAX issuers c w).
Proof.
  revert c w. induction issuers as [|issuer rest IH]; intros c w.
  - exists []. simpl. rewrite app_nil_r. split; [done|]. split; [done|].
    intros c' [= <-]. split; [lia|done].
  - cbn [issuers_loop List.map]. destruct (Z.geb_spec c MAX) as [Hc|Hc].
    + exists []. simpl. rewrite app_nil_r. split; [done|]. split; [apply prefix_nil|].
      intros c' [= <-]. split; lia.
    + destruct (download_for_issuer_searched (issuer_id issuer) DOCUMENT_TYPE_ANNUAL
                  (lit "2011-01-01") MAX c w) as (e1 & Htr1 & Hpre1 & Hok1).
      unfold bind.
      destruct (download_for_issuer _ _ _ _ _ _ _ _ _) as [[c1|e] w1]; simpl in *.
      * destruct (Hok1 c1 eq_refl) as [Hle Hall].
        destruct (Z.le_gt_cases MAX c1) as [Hc1|Hc1].
        -- rewrite issuers_loop_at_cap by done. exists e1. simpl.
           split; [done|]. split.
           { change (post_bodies e1
                       `prefix_of` [issuer_search issuer] ++ List.map issuer_search rest).
             by apply prefix_app_r. }
           intros c' [= <-]. split; lia.
        -- destruct (IH c1 w1) as (e2 & Htr2 & Hpre2 & Hok2).
           exists (e1 ++ e2). rewrite post_bodies_app, (Hall Hc1).
           split; [by rewrite Htr2, Htr1, app_assoc|].
           split; [cbn [app]; by apply prefix_cons|].
           intros c' Hc'. destruct (Hok2 c' Hc') as [Hle2 Hall2].
           split; [lia|]. intros Hlt. by rewrite (Hall2 Hlt).
      * exists e1. split; [done|]. split; [|done].
        change (post_bodies e1
                  `prefix_of` [issuer_search issuer] ++ List.map issuer_search rest).
        by apply prefix_app_r.
Qed.

End Searches.

(** The searches of a run are those of the issuers, in the order of the
    list, each with the fixed page, document type and start date; they
    stop at some issuer, and cover every issuer when the run returns
    below the cap. *)
Theorem searches_follow_issuers U R D max_downloads issuers w :
  let r := issuers_loop U R D max_downloads issuers 0 w in
  let searches := post_bodies (new_events w r.2) in
  searches `prefix_of` List.map issuer_search issuers
  /\ (forall total,
        r.1 = Ok total -> total < max_downloads ->
        searches = List.map issuer_search issuers).
Proof.
  intros r searches. subst r searches.
  destruct (issuers_loop_searched U R D max_downloads issuers 0 w)
    as (events & Htr & Hpre & Hok).
  rewrite (new_events_app _ _ _ Htr). split; [done|].
  intros total Htotal Hlt. by apply (Hok total Htotal).
Qed.

Lemma searches_follow_issuers_witness :
  post_bodies
    (new_events empty_world
       (issuers_loop sample_tables (remote_with None) sound_disk 5
          [ {| issuer_id := Some (lit "i1"); issuer_name := lit "ONE" |};
            {| issuer_id := None; issuer_name := lit "UNKNOWN" |} ]
          0 empty_world).2)
  = [ search_payload_for (Some (lit "i1")) DOCUMENT_TYPE_ANNUAL (lit "2011-01-01");
      search_payload_for None DOCUMENT_TYPE_ANNUAL (lit "2011-01-01") ].
Proof.
  apply (proj2 (searches_follow_issuers sample_tables (remote_with None) sound_disk 5
                  [ {| issuer_id := Some (lit "i1"); issuer_name := lit "ONE" |};
                    {| issuer_id := None; issuer_name := lit "UNKNOWN" |} ]
                  empty_world) 0).
  - reflexivity.
  - lia.
Defined.

(** A file that is in the download directory before a run is there
    after it, with the same content: nothing is overwritten or removed. *)
Theorem existing_files_kept U R D J company_id document_type_id publication_start
    max_downloads already_downloaded w path content :
  downloads_dir w !! path = Some content ->
  downloads_dir (download_for_issuer U R D company_id document_type_id publication_start
                   max_downloads already_downloaded w).2 !! path = Some content
  /\ downloads_dir (main U R D J w).2 !! path = Some content.
Proof.
  intros Hfile. split.
  - destruct (download_for_issuer_logged U R D company_id document_type_id
                publication_start max_downloads already_downloaded w)
      as (events & _ & -> & Hlog).
    eapply lookup_weaken; [exact Hfile|by eapply log_ok_kept].
  - destruct (main_logged U R D J w) as (events & f & _ & -> & Hlog).
    eapply lookup_weaken; [exact Hfile|by eapply log_ok_kept].
Qed.

Lemma existing_files_kept_witness :
  downloads_dir (main sample_tables (remote_with (Some [dated_item])) sound_disk sample_json
                   used_world).2
    !! lit "ACACIA_PHARMA_GROUP_213800SLDKXWKT6E3381_AnnualReport_2022-04-29.pdf"
  = Some [Byte.x01].
Proof.
  apply (existing_files_kept sample_tables (remote_with (Some [dated_item])) sound_disk sample_json
           None [] [] 0 0 used_world).
  vm_compute. reflexivity.
Defined.

(** The files written in a run have distinct paths, none of which
    existed before the run, and all of which end with ".pdf". *)
Theorem written_files_fresh U R D J company_id document_type_id publication_start
    max_downloads already_downloaded w :
  let fresh (w' : World) :=
    NoDup (written_paths (new_events w w'))
    /\ Forall (fun path =>
                 downloads_dir w !! path = None /\ endswith path (lit ".pdf") = true)
              (written_paths (new_events w w')) in
  fresh (download_for_issuer U R D company_id document_type_id publication_start
           max_downloads already_downloaded w).2
  /\ fresh (main U R D J w).2.
Proof.
  intros fresh. subst fresh. split.
  - destruct (download_for_issuer_logged U R D company_id document_type_id
                publication_start max_downloads already_downloaded w)
      as (events & Htr & _ & Hlog).
    rewrite (new_events_app _ _ _ Htr). by eapply log_ok_written.
  - destruct (main_logged U R D J w) as (events & f & Htr & _ & Hlog).
    rewrite (new_events_app _ _ _ Htr). by eapply log_ok_written.
Qed.

(** Every file written in a run holds the body of the download request
    just before it in the trace, and still holds it when the run ends. *)
Theorem written_bytes_are_downloaded U R D J company_id document_type_id publication_start
    max_downloads already_downloaded w :
  let faithful (w' : World) :=
    forall before path content after,
      new_events w w' = before ++ EvWrite path content :: after ->
      exists before' file_data_id,
        before = before' ++ [EvGet (BASE_URL ++ STORI_DOWNLOAD_ENDPOINT) file_data_id]
        /\ http_get R (trace w ++ before') (BASE_URL ++ STORI_DOWNLOAD_ENDPOINT)
             file_data_id = inr content
        /\ downloads_dir w' !! path = Some content in
  faithful (download_for_issuer U R D company_id document_type_id publication_start
              max_downloads already_downloaded w).2
  /\ faithful (main U R D J w).2.
Proof.
  intros faithful. subst faithful. split.
  - destruct (download_for_issuer_logged U R D company_id document_type_id
                publication_start max_downloads already_downloaded w)
      as (events & Htr & Hdir & Hlog).
    rewrite (new_events_app _ _ _ Htr), Hdir. intros before path content after.
    by apply (log_ok_content R D _ _ _ _ _ _ _ _ Hlog).
  - destruct (main_logged U R D J w) as (events & f & Htr & Hdir & Hlog).
    rewrite (new_events_app _ _ _ Htr), Hdir. intros before path content after.
    by apply (log_ok_content R D _ _ _ _ _ _ _ _ Hlog).
Qed.

Lemma written_bytes_are_downloaded_witness :
  downloads_dir (main sample_tables (remote_with (Some [dated_item])) sound_disk sample_json
                   used_world).2
    !! lit "ACACIA_PHARMA_GROUP_213800SLDKXWKT6E3381_AnnualReport_2022-04-29_v2.pdf"
  = Some [].
Proof.
  destruct (proj2 (written_bytes_are_downloaded sample_tables
                     (remote_with (Some [dated_item])) sound_disk sample_json None [] [] 0 0
                     used_world)
              [EvPost (BASE_URL ++ STORI_RESULT_ENDPOINT)
                 (search_payload_for
                    (Some (lit "02285e3c-71e9-496a-8d47-d1408131c44b"))
                    DOCUMENT_TYPE_ANNUAL (lit "2011-01-01"));
               EvGet (BASE_URL ++ STORI_DOWNLOAD_ENDPOINT) (lit "m1")]
              (lit "ACACIA_PHARMA_GROUP_213800SLDKXWKT6E3381_AnnualReport_2022-04-29_v2.pdf")
              []
              [EvGet (BASE_URL ++ STORI_DOWNLOAD_ENDPOINT) (lit "a1");
               EvWrite
                 (lit "ACACIA_PHARMA_GROUP_213800SLDKXWKT6E3381_AnnualReport_2022-04-29_v3.pdf")
                 []])
    as (before' & file_data_id & _ & _ & Hfile).
  - vm_compute. reflexivity.
  - exact Hfile.
Defined.

(** The download directory grows by one file per file written; and the
    counter returned by the per-issuer routine is the counter it was given
    plus the number of files it wrote, between that counter and the larger
    of it and the cap. *)
Theorem downloads_counted U R D company_id document_type_id publication_start
    max_downloads already_downloaded w :
  let r := download_for_issuer U R D company_id document_type_id publication_start
             max_downloads already_downloaded w in
  let written := written_paths (new_events w r.2) in
  size (downloads_dir r.2) = (size (downloads_dir w) + length written)%nat
  /\ (forall total,
        r.1 = Ok total ->
        total = already_downloaded + Z.of_nat (length written)
        /\ already_downloaded <= total <= Z.max already_downloaded max_downloads).
Proof.
  intros r written. subst r written.
  destruct (download_for_issuer_logged U R D company_id document_type_id
              publication_start max_downloads already_downloaded w)
    as (events & Htr & Hdir & Hlog).
  destruct (download_for_issuer_capped U R D company_id document_type_id
              publication_start max_downloads already_downloaded w)
    as (events' & Htr' & _ & Hle & Hok).
  assert (events' = events) as -> by (rewrite Htr in Htr'; by eapply app_inv_head).
  rewrite (new_events_app _ _ _ Htr), Hdir. split; [by eapply log_ok_size|].
  intros total Htotal. rewrite Htotal in Hlog. simpl in Hlog.
  apply log_ok_counts in Hlog. rewrite (Hok total Htotal). unfold downloads in *. lia.
Qed.

Lemma downloads_counted_witness :
  (download_for_issuer sample_tables (remote_with (Some [dated_item])) sound_disk None
     DOCUMENT_TYPE_ANNUAL (lit "2011-01-01") 5 0 used_world).1 = Ok 2
  /\ 2 = 0 + Z.of_nat
           (length (written_paths
              (new_events used_world
                 (download_for_issuer sample_tables (remote_with (Some [dated_item])) sound_disk None
                    DOCUMENT_TYPE_ANNUAL (lit "2011-01-01") 5 0 used_world).2))).
Proof.
  split; [vm_compute; reflexivity|].
  apply (proj2 (downloads_counted sample_tables (remote_with (Some [dated_item])) sound_disk None
                  DOCUMENT_TYPE_ANNUAL (lit "2011-01-01") 5 0 used_world) 2).
  vm_compute. reflexivity.
Defined.

(** A search or download request that fails ends the run: it is the
    last event of the run, nothing is requested or written after it, and
    the run raises the exception that the request gave. *)
Theorem request_failure_ends_run U R D max_downloads :
  (forall company_id document_type_id publication_start already_downloaded w
          before ev after e,
     let r := download_for_issuer U R D company_id document_type_id publication_start
                max_downloads already_downloaded w in
     new_events w r.2 = before ++ ev :: after ->
     failed R (trace w ++ before) ev e ->
     after = [] /\ r.1 = Raise e)
  /\ (forall issuers total_downloads w before ev after e,
        let r := issuers_loop U R D max_downloads issuers total_downloads w in
        new_events w r.2 = before ++ ev :: after ->
        failed R (trace w ++ before) ev e ->
        after = [] /\ r.1 = Raise e).
Proof.
  assert (forall (o : Outcome Z) e, failure o = Some e -> o = Raise e) as Hraise.
  { intros [total|e'] e; simpl; congruence. }
  split.
  - intros company_id document_type_id publication_start already_downloaded w
           before ev after e r Hev Hfail. subst r.
    destruct (download_for_issuer_logged U R D company_id document_type_id
                publication_start max_downloads already_downloaded w)
      as (events & Htr & _ & Hlog).
    rewrite (new_events_app _ _ _ Htr) in Hev.
    destruct (log_ok_failed R D _ _ _ _ _ _ _ _ Hlog Hev Hfail) as [-> Hf].
    split; [done|]. by apply Hraise.
  - intros issuers total_downloads w before ev after e r Hev Hfail. subst r.
    destruct (issuers_loop_logged U R D max_downloads issuers total_downloads w)
      as (events & Htr & _ & Hlog).
    rewrite (new_events_app _ _ _ Htr) in Hev.
    destruct (log_ok_failed R D _ _ _ _ _ _ _ _ Hlog Hev Hfail) as [-> Hf].
    split; [done|]. by apply Hraise.
Qed.

Lemma request_failure_ends_run_witness :
  (download_for_issuer sample_tables (remote_without_downloads (Some [dated_item]))
     sound_disk None DOCUMENT_TYPE_ANNUAL (lit "2011-01-01") 5 0 empty_world).1
  = Raise RequestException.
Proof.
  apply (proj1 (request_failure_ends_run sample_tables
                  (remote_without_downloads (Some [dated_item])) sound_disk 5)
           None DOCUMENT_TYPE_ANNUAL (lit "2011-01-01") 0 empty_world
           [EvPost (BASE_URL ++ STORI_RESULT_ENDPOINT)
              (search_payload_for None DOCUMENT_TYPE_ANNUAL (lit "2011-01-01"))]
           (EvGet (BASE_URL ++ STORI_DOWNLOAD_ENDPOINT) (lit "m1")) []
           RequestException).
  - vm_compute. reflexivity.
  - reflexivity.
Defined.

Lemma resolved_path_is_free_witness :
  crowded_directory !! lit "ACACIA_2138_AnnualReport_2022-04-29_v3.pdf" = None.
Proof.
  apply (proj1 (resolved_path_is_free sound_disk [] crowded_directory
                  (lit "ACACIA_2138_AnnualReport_2022-04-29.pdf"))
           (lit "ACACIA_2138_AnnualReport_2022-04-29_v3.pdf")).
  vm_compute. reflexivity.
Defined.

(** ** The filter in the download routine *)

(** C2.  A document passes the filter of the download routine exactly
    when its language is "en" or "nl", its file type is "pdf" or its
    original file name ends with ".pdf" (all three up to case), and its
    fileDataId is present and not empty.  The body of the loop treats a
    conforming document as accepted: it resolves the output path and, unless
    a test of existence raises, requests the download of that fileDataId
    as its next event, and writes the body and counts the download when
    the request and the opening of the file succeed.  A document that does
    not conform is skipped: the counter and the world are as before, and
    nothing is raised. *)
Theorem document_filter_correct U R D :
  tables_agree U ->
  forall doc,
    (is_Some (document_filter U doc) <-> acceptable doc)
    /\ (forall file_data_id,
          document_filter U doc = Some file_data_id ->
          fileDataId doc = Some file_data_id)
    /\ forall company_name lei publication_iso download_count w,
         let r := download_document U R D company_name lei publication_iso doc
                    download_count w in
         let output_name := build_output_filename U company_name lei publication_iso in
         let url := BASE_URL ++ STORI_DOWNLOAD_ENDPOINT in
         (acceptable doc ->
          exists file_data_id,
            fileDataId doc = Some file_data_id
            /\ match resolve_output_path D (trace w) (downloads_dir w) output_name with
               | Some (inr output_path) =>
                   (exists rest, new_events w r.2 = EvGet url file_data_id :: rest)
                   /\ (forall content,
                         http_get R (trace w) url file_data_id = inr content ->
                         open_error D (trace w ++ [EvGet url file_data_id]) output_path
                         = None ->
                         r.1 = Ok (download_count + 1)
                         /\ new_events w r.2
                            = [EvGet url file_data_id; EvWrite output_path content]
                         /\ downloads_dir r.2 !! output_path = Some content)
               | Some (inl e) => r = (Raise e, w)
               | None => False
               end)
         /\ (~ acceptable doc -> r = (Ok download_count, w)).
Proof.
  intros HU doc. pose proof (document_filter_acceptable U doc HU) as Hiff.
  assert (forall file_data_id,
            document_filter U doc = Some file_data_id ->
            fileDataId doc = Some file_data_id) as Hid.
  { unfold document_filter. intros file_data_id.
    repeat match goal with
           | |- context [if ?b then _ else _] => destruct b
           end; try discriminate.
    by destruct (fileDataId doc) as [[|c s]|]. }
  split; [done|]. split; [done|].
  intros company_name lei publication_iso download_count w r output_name url.
  subst r output_name url. unfold download_document. split.
  - intros Hdoc. apply Hiff in Hdoc as [file_data_id Hfilter].
    exists file_data_id. split; [by apply Hid|]. rewrite Hfilter.
    destruct (resolve_output_path_total D (trace w) (downloads_dir w)
                (build_output_filename U company_name lei publication_iso))
      as [[e|output_path] ->]; [done|].
    unfold bind. rewrite download_file_run.
    set (url := BASE_URL ++ STORI_DOWNLOAD_ENDPOINT).
    destruct (http_get R (trace w) url file_data_id) as [e|content];
      [split; [by exists []; apply new_events_app|done]|].
    unfold write_bytes. cbn [trace record].
    destruct (open_error D (trace w ++ [EvGet url file_data_id]) output_path) as [e|].
    + split; [by exists []; apply new_events_app|done].
    + split.
      * exists [EvWrite output_path content]. apply new_events_app. cbn.
        by rewrite <- app_assoc.
      * intros content' [= <-] _. split; [done|]. split.
        -- apply new_events_app. cbn. by rewrite <- app_assoc.
        -- cbn. apply lookup_insert_eq.
  - intros Hdoc. destruct (document_filter U doc) eqn:Hfilter; [|done].
    exfalso. apply Hdoc, Hiff. by eexists.
Qed.

Lemma document_filter_correct_witness : acceptable example_document.
Proof.
  apply (proj1 (document_filter_correct sample_tables (remote_with None) sound_disk
                  sample_tables_agree example_document)).
  vm_compute. by eexists.
Defined.

(** The accepted document of the example is downloaded and written. *)
Example example_document_downloaded :
  let r := download_document sample_tables (remote_with None) sound_disk
             (lit "Acacia") (lit "2138") (lit "2022-04-29T10:00:00Z")
             example_document 0 empty_world in
  r.1 = Ok 1
  /\ trace r.2
     = [EvGet (BASE_URL ++ STORI_DOWNLOAD_ENDPOINT) (lit "x");
        EvWrite (lit "ACACIA_2138_AnnualReport_2022-04-29.pdf") []].
Proof. vm_compute. split; reflexivity. Qed.
